(** * Poisson-disc sampling for images: a shallow embedding

    The sampler of [poissonImageSampler.ts] (the version that takes an image
    list and an [isCircle] flag) is embedded over the real numbers: a JS
    [number] is an [R], [Math.floor] and [Math.ceil] are [Zfloor] and
    [Zceil], integers that the code only ever obtains from them (columns,
    rows, grid indices, image indices) are [Z].  [Math.random] is an oracle
    [random : nat -> R] read through a draw counter, so that every property
    is stated for every sequence of draws.  The sparse array [GRID] is a
    finite map from [Z]; the array [ACTIVE] is a list.  The real numbers
    have no [NaN] and no infinity, and [x / 0] is 0 in Rocq: the embedding
    follows the code on the inputs for which the cell size is not zero and
    the image list is not empty, which validated inputs always are. *)

From Stdlib Require Import Reals Lra Lia ZArith.
From stdpp Require Import base option list gmap.

#[local] Open Scope R_scope.

(** ** Numbers *)

Definition Rltb (a b : R) : bool := if Rlt_dec a b then true else false.
Definition Rleb (a b : R) : bool := if Rle_dec a b then true else false.
Definition Rgeb (a b : R) : bool := Rleb b a.
Definition Reqb (a b : R) : bool := if Req_dec_T a b then true else false.

(** [Math.hypot(a, b)] *)
Definition Math_hypot (a b : R) : R := sqrt (a * a + b * b).

(** [Math.min(...l)] and [Math.max(...l)] on a non-empty list; on the empty
    list JS answers with an infinity, which the validation of the image
    list keeps away from the sampler (see [hasValidImageList]). *)
Definition Math_min (l : list R) : R :=
  match l with
  | [] => 0
  | a :: l' => fold_left Rmin l' a
  end.

Definition Math_max (l : list R) : R :=
  match l with
  | [] => 0
  | a :: l' => fold_left Rmax l' a
  end.

(** [a[i]] for a JS array and an integral index: [undefined] outside. *)
Definition array_get {A : Type} (a : list A) (i : Z) : option A :=
  if (i <? 0)%Z then None else a !! Z.to_nat i.

(** [a.splice(i, 1)] for an integral index: a negative index counts from
    the end, and nothing is removed beyond the end. *)
Definition splice1 {A : Type} (a : list A) (i : Z) : list A :=
  let start := if (i <? 0)%Z then Z.max (Z.of_nat (length a) + i) 0 else i in
  delete (Z.to_nat start) a.

(** ** Types *)

(** The fields [x] and [y] of the bounds are named [bounds_x] and
    [bounds_y]: [x] and [y] are the fields of [Sample]. *)
Record Bounds : Type := mkBounds
  { bounds_x : R; bounds_y : R; width : R; height : R }.

Record Sample : Type := mkSample
  { x : R; y : R; radius : R; index : Z }.

Record Image : Type := mkImage { size : R }.

(** The optional fields are absent or numbers; [maxTries] counts the
    iterations of a [for] loop and is taken integral. *)
Record Options : Type := mkOptions
  { bounds : Bounds;
    images : list Image;
    minDist : option R;
    maxTries : option Z;
    isCircle : option bool }.

(** The sparse array of samples. *)
Abbreviation SampleList := (gmap Z Sample).

(** ** Results and the draw monad

    A computation reads the oracle from a draw counter on.  It ends with a
    value and the next counter, with the [TypeError] JS throws on a property
    of [undefined], or is cut by the fuel of the [while] loop. *)

Inductive result (A : Type) : Type :=
| Ok (a : A)
| TypeError
| OutOfFuel.
Arguments Ok {A} a.
Arguments TypeError {A}.
Arguments OutOfFuel {A}.

Definition M (A : Type) : Type := nat -> result (A * nat).

#[export] Instance M_ret : MRet M := fun A a k => Ok (a, k).

#[export] Instance M_bind : MBind M := fun A B f m k =>
  match m k with
  | Ok (a, k') => f a k'
  | TypeError => TypeError
  | OutOfFuel => OutOfFuel
  end.

Definition throw {A : Type} : M A := fun _ => TypeError.
Definition timeout {A : Type} : M A := fun _ => OutOfFuel.

Definition defined {A : Type} (o : option A) : M A :=
  match o with Some a => mret a | None => throw end.

Section Sampler.

(** The sequence of values [Math.random()] returns. *)
Variable random : nat -> R.

Definition Math_random : M R := fun k => Ok (random k, S k).

(** ** Functions *)

Definition clampRandom (min max : R) : M R :=
  u ← Math_random;
  mret (min + u * (max - min)).

Definition getRadiusForSize (size : R) : R :=
  sqrt (size ^ 2 * 2) * (1 / 2).

Definition createFirstSample (bounds : Bounds) (image : Image) (isCircle : bool)
  : M Sample :=
  let '(mkBounds x y width height) := bounds in
  let size := size image in
  sx ← clampRandom (x + size) (width + x - size);
  sy ← clampRandom (y + size) (height + y - size);
  mret {| x := sx;
         y := sy;
         radius := if isCircle then size else getRadiusForSize size;
         index := 0 |}.

Definition createSampleFromSample
  (sample : Sample) (images : list Image) (minDist : R) (isCircle : bool)
  : M Sample :=
  u ← Math_random;
  let randomImageIndex := Zfloor (u * INR (length images)) in
  image ← defined (array_get images randomImageIndex);
  let size := size image in
  v ← Math_random;
  let angle := v * PI * 2 in
  let minRadius := minDist + size + radius sample in
  let maxRadius := minRadius + minDist in
  dx ← clampRandom minRadius maxRadius;
  dy ← clampRandom minRadius maxRadius;
  mret {| x := x sample + cos angle * dx;
         y := y sample + sin angle * dy;
         radius := if isCircle then size else getRadiusForSize size;
         index := randomImageIndex |}.

Definition getIndexInGrid (sample : Sample) (cellSize : R) (cols : Z) : Z :=
  let col := Zfloor (x sample / cellSize) in
  let row := Zfloor (y sample / cellSize) in
  (col + row * cols)%Z.

Definition isInBounds
  (sample : Sample) (col row cols rows : Z) (bounds : Bounds) : bool :=
  (col <? cols)%Z &&
  (row <? rows)%Z &&
  Rgeb (x sample - radius sample) 0 &&
  Rleb (x sample + radius sample) (width bounds) &&
  Rgeb (y sample - radius sample) 0 &&
  Rleb (y sample + radius sample) (height bounds).

(** The test one cell of the neighbourhood imposes on [sample]. *)
Definition neighbourAllows
  (sample : Sample) (minDist : R) (neighbour : option Sample) : bool :=
  match neighbour with
  | Some n =>
      negb (Rltb (Math_hypot (x n - x sample) (y n - y sample))
                 (minDist + radius sample + radius n))
  | None => true
  end.

Definition isAllowedToDraw
  (sample : Sample) (cellSize : R) (cols : Z) (minDist : R)
  (grid : SampleList) (range : Z) : bool :=
  let col := Zfloor (x sample / cellSize) in
  let row := Zfloor (y sample / cellSize) in
  forallb (fun i =>
    forallb (fun j =>
      neighbourAllows sample minDist (grid !! (col + i + (row + j) * cols)%Z))
      (seqZ (- range) (2 * range + 1)))
    (seqZ (- range) (2 * range + 1)).

(** Every entry must carry a truthy [size]: the reduction of the source
    stays a number exactly when no size is zero. *)
Definition hasValidImageList (imageList : list Image) : bool :=
  (0 <? length imageList)%nat &&
  forallb (fun v => negb (Reqb (size v) 0)) imageList.

(** ** The sampler *)

Definition DEFAULT_MIN_DIST : R := 20.
Definition DEFAULT_MAX_TRIES : Z := 30.

(** The two arrays the loop mutates. *)
Record State : Type := mkState
  { GRID : SampleList; ACTIVE : list Sample }.

Section Loop.

Variables (BOUNDS : Bounds) (IMAGES : list Image) (IS_CIRCLE : bool)
          (MIN_DIST : R) (MAX_TRIES : Z).

Definition minRadius : R := Math_min (map size IMAGES).
Definition maxRadius : R := Math_max (map size IMAGES).
Definition CELL_SIZE : R := (MIN_DIST + minRadius * 2) / sqrt 2.
Definition COLS : Z := Zfloor (width BOUNDS / CELL_SIZE).
Definition ROWS : Z := Zfloor (height BOUNDS / CELL_SIZE).
Definition RANGE : Z := Zceil ((MIN_DIST + maxRadius * 2) / CELL_SIZE).

(** [GRID[getIndexInGrid(newSample, CELL_SIZE, COLS)] = newSample;
     ACTIVE.push(newSample)] *)
Definition place (newSample : Sample) (st : State) : State :=
  {| GRID := <[getIndexInGrid newSample CELL_SIZE COLS := newSample]> (GRID st);
     ACTIVE := ACTIVE st ++ [newSample] |}.

(** [col] and [row] are the constants computed once from the first sample,
    before the loop. *)
Variables (col row : Z).

(** The [for] loop, with [n] iterations left. *)
Fixpoint tryLoop (n : nat) (activeSample : Sample) (st : State)
  (hasFoundNewSample : bool) : M (State * bool) :=
  match n with
  | O => mret (st, hasFoundNewSample)
  | S n' =>
      newSample ← createSampleFromSample activeSample IMAGES MIN_DIST IS_CIRCLE;
      if negb (isInBounds newSample col row COLS ROWS BOUNDS)
      then tryLoop n' activeSample st hasFoundNewSample
      else if negb (isAllowedToDraw newSample CELL_SIZE COLS MIN_DIST
                      (GRID st) RANGE)
      then tryLoop n' activeSample st hasFoundNewSample
      else tryLoop n' activeSample (place newSample st) true
  end.

(** One iteration of the [while] loop.  A seed index outside [ACTIVE] gives
    [undefined], whose [radius] the first candidate generation would read:
    the [TypeError] is raised at the lookup. *)
Definition whileBody (st : State) : M State :=
  u ← Math_random;
  let randomActiveIndex := Zfloor (u * INR (length (ACTIVE st))) in
  activeSample ← defined (array_get (ACTIVE st) randomActiveIndex);
  '(st', hasFoundNewSample) ← tryLoop (Z.to_nat MAX_TRIES) activeSample st false;
  if negb hasFoundNewSample
  then mret {| GRID := GRID st';
               ACTIVE := splice1 (ACTIVE st') randomActiveIndex |}
  else mret st'.

(** [while (ACTIVE.length) { ... }], cut after [fuel] iterations. *)
Fixpoint whileLoop (fuel : nat) (st : State) : M State :=
  match ACTIVE st with
  | [] => mret st
  | _ :: _ =>
      match fuel with
      | O => timeout
      | S fuel' => st' ← whileBody st; whileLoop fuel' st'
      end
  end.

End Loop.

(** The sampler once the options are validated and defaulted: it returns
    the state it ends in, whose [GRID] is the array handed back. *)
Definition sampler (BOUNDS : Bounds) (IMAGES : list Image) (IS_CIRCLE : bool)
  (MIN_DIST : R) (MAX_TRIES : Z) (fuel : nat) : M State :=
  let CELL_SIZE := CELL_SIZE IMAGES MIN_DIST in
  let COLS := COLS BOUNDS IMAGES MIN_DIST in
  let ROWS := ROWS BOUNDS IMAGES MIN_DIST in
  image0 ← defined (array_get IMAGES 0);
  sample ← createFirstSample BOUNDS image0 IS_CIRCLE;
  let col := Zfloor (x sample / CELL_SIZE) in
  let row := Zfloor (y sample / CELL_SIZE) in
  if negb (isInBounds sample col row COLS ROWS BOUNDS)
  then mret {| GRID := ∅; ACTIVE := [] |}
  else
    whileLoop BOUNDS IMAGES IS_CIRCLE MIN_DIST MAX_TRIES col row fuel
      {| GRID := {[ getIndexInGrid sample CELL_SIZE COLS := sample ]};
         ACTIVE := [sample] |}.

(** The public function.  [hasValidBounds] only inspects the types of the
    four fields, which [Bounds] fixes; a missing [minDist], [maxTries] or
    [isCircle] takes its default. *)
Definition poissonImageSampler (options : Options) (fuel : nat)
  : M SampleList :=
  if negb (hasValidImageList (images options)) then mret ∅
  else
    let BOUNDS := bounds options in
    let IMAGES := images options in
    let IS_CIRCLE := default false (isCircle options) in
    let MIN_DIST := default DEFAULT_MIN_DIST (minDist options) in
    let MAX_TRIES := default DEFAULT_MAX_TRIES (maxTries options) in
    st ← sampler BOUNDS IMAGES IS_CIRCLE MIN_DIST MAX_TRIES fuel;
    mret (GRID st).

End Sampler.

(** * Auxiliary definitions *)

(** The candidate drawn from [sample] with image [image] of index [i], from
    draw [k] on: the record [createSampleFromSample] builds. *)
Definition candidateAt (random : nat -> R) (sample : Sample) (image : Image) (i : Z)
  (minDist : R) (isCircle : bool) (k : nat) : Sample :=
  let lo := minDist + size image + radius sample in
  {| x := x sample + cos (random (S k) * PI * 2)
                     * (lo + random (S (S k)) * (lo + minDist - lo));
     y := y sample + sin (random (S k) * PI * 2)
                     * (lo + random (S (S (S k))) * (lo + minDist - lo));
     radius := if isCircle then size image else getRadiusForSize (size image);
     index := i |}.

(** The first sample drawn inside [b] for [image], from draw [k] on: the
    record [createFirstSample] builds. *)
Definition firstSampleAt (random : nat -> R) (b : Bounds) (image : Image)
  (isCircle : bool) (k : nat) : Sample :=
  {| x := bounds_x b + size image
          + random k * (width b + bounds_x b - size image
                        - (bounds_x b + size image));
     y := bounds_y b + size image
          + random (S k) * (height b + bounds_y b - size image
                            - (bounds_y b + size image));
     radius := if isCircle then size image else getRadiusForSize (size image);
     index := 0 |}.

(** ** The moves of the loop

    What the loop does to the two arrays: it places a candidate drawn from
    an active seed that passed both tests, or it removes an entry of the
    active list. *)

Section Steps.

Variables (random : nat -> R) (BOUNDS : Bounds) (IMAGES : list Image)
          (IS_CIRCLE : bool) (MIN_DIST : R) (col row : Z).

Inductive step : State -> State -> Prop :=
| step_place (st : State) (seed newSample : Sample) (k k' : nat) :
    seed ∈ ACTIVE st ->
    createSampleFromSample random seed IMAGES MIN_DIST IS_CIRCLE k
      = Ok (newSample, k') ->
    isInBounds newSample col row (COLS BOUNDS IMAGES MIN_DIST)
      (ROWS BOUNDS IMAGES MIN_DIST) BOUNDS = true ->
    isAllowedToDraw newSample (CELL_SIZE IMAGES MIN_DIST)
      (COLS BOUNDS IMAGES MIN_DIST) MIN_DIST (GRID st)
      (RANGE IMAGES MIN_DIST) = true ->
    step st (place BOUNDS IMAGES MIN_DIST newSample st)
| step_remove (st : State) (i : Z) :
    step st {| GRID := GRID st; ACTIVE := splice1 (ACTIVE st) i |}.

End Steps.

(** ** Concrete inputs

    One image of size 1 drawn as a circle, a minimum distance of 8 and a
    square of side 13: the cells have side [10 / sqrt 2], so that the grid
    has one column and one row. *)

Definition unit_images : list Image := [ {| size := 1 |} ].
Definition square13 : Bounds :=
  {| bounds_x := 0; bounds_y := 0; width := 13; height := 13 |}.

(** Draws given by a finite list, and 0 afterwards. *)
Definition draws (l : list R) : nat -> R := fun k => nth k l 0.

Definition sampleP : Sample := {| x := 1; y := 1; radius := 1; index := 0 |}.
Definition sampleA : Sample := {| x := 11; y := 1; radius := 1; index := 0 |}.
Definition sampleB : Sample := {| x := 1; y := 11; radius := 1; index := 0 |}.

(** ** Properties of the arrays *)

(** Every two samples of the grid keep the required distance. *)
Definition spaced (m : R) (grid : SampleList) : Prop :=
  forall (i j : Z) (a b : Sample),
    i <> j -> grid !! i = Some a -> grid !! j = Some b ->
    m + radius a + radius b <= Math_hypot (x a - x b) (y a - y b).

(** Every sample of the grid sits at its own index, and its radius is at
    most [rmax]. *)
Definition stored (cs : R) (cols : Z) (rmax : R) (grid : SampleList) : Prop :=
  forall (i : Z) (n : Sample),
    grid !! i = Some n -> i = getIndexInGrid n cs cols /\ radius n <= rmax.

(** The inputs the caller has validated. *)
Definition validated (o : Options) : Prop :=
  0 < width (bounds o) /\ 0 < height (bounds o) /\
  images o <> [] /\ (forall image, image ∈ images o -> 0 < size image) /\
  0 <= default DEFAULT_MIN_DIST (minDist o) /\
  (1 <= default DEFAULT_MAX_TRIES (maxTries o))%Z.

(** The sampler on the square of side 13, with one try per seed. *)
Definition circle13 : Options :=
  {| bounds := square13; images := unit_images; minDist := Some 8;
     maxTries := Some 1%Z; isCircle := Some true |}.

(** Draws that place [sampleP], then [sampleA] east of it and [sampleB]
    north of it, and then only candidates beyond the right edge. *)
Definition overwriting_draws : nat -> R :=
  draws [ 0; 0;
          0; 0; 0; 0; 0;
          0; 0; 1 / 4; 0; 0;
          0; 0; 0; 7 / 8; 0;
          0; 0; 0; 7 / 8; 0;
          0; 0; 0; 7 / 8; 0 ].

(** The grids of the runs below. *)
Definition gridP : SampleList := {[ 0%Z := sampleP ]}.
Definition gridPA : SampleList := <[ 1%Z := sampleA ]> gridP.
Definition gridPB : SampleList := <[ 1%Z := sampleB ]> gridP.

(** Draws that make [sampleP] place [sampleA] and [sampleB] in turn, for
    ever: all draws are 0, but the angle of every second candidate is a
    quarter of a turn. *)
Definition alternating_draws : nat -> R :=
  fun k => if (k mod 10 =? 9)%nat then 1 / 4 else 0.

(** A rectangle that does not start at the origin. *)
Definition shifted15 : Bounds :=
  {| bounds_x := 2; bounds_y := 0; width := 15; height := 13 |}.

Definition circle15 : Options :=
  {| bounds := shifted15; images := unit_images; minDist := Some 8;
     maxTries := Some 1%Z; isCircle := Some true |}.

(** Draws that place [sampleA], then [sampleP] west of it, and then only
    candidates beyond the left edge. *)
Definition westward_draws : nat -> R :=
  draws [ 8 / 13; 0;
          0; 0; 1 / 2; 0; 0;
          0; 0; 1 / 2; 7 / 8; 0;
          0; 0; 1 / 2; 7 / 8; 0 ].

(** Bounds without extent, with one image of size 10 and the defaults. *)
Definition empty_bounds_options : Options :=
  {| bounds := {| bounds_x := 0; bounds_y := 0; width := 0; height := 0 |};
     images := [ {| size := 10 |} ];
     minDist := None; maxTries := None; isCircle := None |}.



(** ** The in-bounds test of the sampler with a fixed radius

    [src/poissonImageSampler.ts] holds the sampler without image list; its
    [isInBounds] compares the footprint with the origin of the bounds. *)
Module FixedRadius.

Definition isInBounds
  (sample : Sample) (col row cols rows : Z) (bounds : Bounds) : bool :=
  (col <? cols)%Z &&
  (row <? rows)%Z &&
  Rgeb (x sample - radius sample) (bounds_x bounds) &&
  Rleb (x sample + radius sample) (bounds_x bounds + width bounds) &&
  Rgeb (y sample - radius sample) (bounds_y bounds) &&
  Rleb (y sample + radius sample) (bounds_y bounds + height bounds).

(** The rest of that file.  Its samples have no [index]: the field is set
    to 0 and never read.  [clampRandom] and [getIndexInGrid] are the same
    functions as in the sampler for images. *)

Record Options : Type := mkOptions
  { bounds : Bounds;
    minDist : option R;
    maxTries : option Z }.

Section Sampler.

Variable random : nat -> R.

Definition createFirstSample (bounds : Bounds) : M Sample :=
  let '(mkBounds x y width height) := bounds in
  let radius := 5 in
  sx ← clampRandom random (x + radius) (width + x - radius);
  sy ← clampRandom random (y + radius) (height + y - radius);
  mret {| x := sx; y := sy; radius := radius; index := 0 |}.

(** [sampleRadius] is [sample.radius], read before the local [radius]
    hides the name of the field. *)
Definition createSampleFromSample (sample : Sample) (minDist : R) : M Sample :=
  v ← Math_random random;
  let angle := v * PI * 2 in
  let sampleRadius := radius sample in
  let radius := 5 in
  let minRadius := minDist + radius + sampleRadius in
  let maxRadius := minRadius + minDist in
  dx ← clampRandom random minRadius maxRadius;
  dy ← clampRandom random minRadius maxRadius;
  mret {| x := x sample + cos angle * dx;
          y := y sample + sin angle * dy;
          radius := radius;
          index := 0 |}.

Definition isAllowedToDraw
  (sample : Sample) (cellSize : R) (cols : Z) (minDist : R)
  (grid : SampleList) : bool :=
  let col := Zfloor (x sample / cellSize) in
  let row := Zfloor (y sample / cellSize) in
  forallb (fun i =>
    forallb (fun j =>
      match grid !! (col + i + (row + j) * cols)%Z with
      | Some neighbour =>
          negb (Rltb (Math_hypot (x neighbour - x sample)
                                 (y neighbour - y sample)) minDist)
      | None => true
      end)
      (seqZ (-1) 3))
    (seqZ (-1) 3).

Section Loop.

Variables (BOUNDS : Bounds) (MIN_DIST : R) (MAX_TRIES : Z).

Definition CELL_SIZE : R := MIN_DIST / sqrt 2.
Definition COLS : Z := Zfloor (width BOUNDS / CELL_SIZE).
Definition ROWS : Z := Zfloor (height BOUNDS / CELL_SIZE).

Definition place (newSample : Sample) (st : State) : State :=
  {| GRID := <[getIndexInGrid newSample CELL_SIZE COLS := newSample]> (GRID st);
     ACTIVE := ACTIVE st ++ [newSample] |}.

Variables (col row : Z).

Fixpoint tryLoop (n : nat) (activeSample : Sample) (st : State)
  (hasFoundNewSample : bool) : M (State * bool) :=
  match n with
  | O => mret (st, hasFoundNewSample)
  | S n' =>
      newSample ← createSampleFromSample activeSample MIN_DIST;
      if negb (isInBounds newSample col row COLS ROWS BOUNDS)
      then tryLoop n' activeSample st hasFoundNewSample
      else if negb (isAllowedToDraw newSample CELL_SIZE COLS MIN_DIST (GRID st))
      then tryLoop n' activeSample st hasFoundNewSample
      else tryLoop n' activeSample (place newSample st) true
  end.

Definition whileBody (st : State) : M State :=
  u ← Math_random random;
  let randomActiveIndex := Zfloor (u * INR (length (ACTIVE st))) in
  activeSample ← defined (array_get (ACTIVE st) randomActiveIndex);
  '(st', hasFoundNewSample) ← tryLoop (Z.to_nat MAX_TRIES) activeSample st false;
  if negb hasFoundNewSample
  then mret {| GRID := GRID st';
               ACTIVE := splice1 (ACTIVE st') randomActiveIndex |}
  else mret st'.

Fixpoint whileLoop (fuel : nat) (st : State) : M State :=
  match ACTIVE st with
  | [] => mret st
  | _ :: _ =>
      match fuel with
      | O => timeout
      | S fuel' => st' ← whileBody st; whileLoop fuel' st'
      end
  end.

End Loop.

Definition sampler (BOUNDS : Bounds) (MIN_DIST : R) (MAX_TRIES : Z)
  (fuel : nat) : M State :=
  let CELL_SIZE := CELL_SIZE MIN_DIST in
  let COLS := COLS BOUNDS MIN_DIST in
  let ROWS := ROWS BOUNDS MIN_DIST in
  sample ← createFirstSample BOUNDS;
  let col := Zfloor (x sample / CELL_SIZE) in
  let row := Zfloor (y sample / CELL_SIZE) in
  if negb (isInBounds sample col row COLS ROWS BOUNDS)
  then mret {| GRID := ∅; ACTIVE := [] |}
  else
    whileLoop BOUNDS MIN_DIST MAX_TRIES col row fuel
      {| GRID := {[ getIndexInGrid sample CELL_SIZE COLS := sample ]};
         ACTIVE := [sample] |}.

Definition poissonImageSampler (options : Options) (fuel : nat)
  : M SampleList :=
  let BOUNDS := bounds options in
  let MIN_DIST := default DEFAULT_MIN_DIST (minDist options) in
  let MAX_TRIES := default DEFAULT_MAX_TRIES (maxTries options) in
  st ← sampler BOUNDS MIN_DIST MAX_TRIES fuel;
  mret (GRID st).

End Sampler.

End FixedRadius.

(** The radius the two constructors derive from an image. *)
Definition radiusOf (isCircle : bool) (image : Image) : R :=
  if isCircle then size image else getRadiusForSize (size image).

(** The sampler on the square of side 13 without any try. *)
Definition circle13_no_tries : Options :=
  {| bounds := square13; images := unit_images; minDist := Some 8;
     maxTries := Some 0%Z; isCircle := Some true |}.

(** Options whose image list holds an image of size 0. *)
Definition zero_size_options : Options :=
  {| bounds := square13; images := [ {| size := 1 |}; {| size := 0 |} ];
     minDist := Some 8; maxTries := Some 1%Z; isCircle := Some true |}.

(** The records the two constructors of the sampler with a fixed radius
    build, from draw [k] on. *)
Definition fixedFirstAt (random : nat -> R) (b : Bounds) (k : nat) : Sample :=
  {| x := bounds_x b + 5
          + random k * (width b + bounds_x b - 5 - (bounds_x b + 5));
     y := bounds_y b + 5
          + random (S k) * (height b + bounds_y b - 5 - (bounds_y b + 5));
     radius := 5;
     index := 0 |}.

Definition fixedCandidateAt (random : nat -> R) (sample : Sample)
  (minDist : R) (k : nat) : Sample :=
  let lo := minDist + 5 + radius sample in
  {| x := x sample + cos (random k * PI * 2)
                     * (lo + random (S k) * (lo + minDist - lo));
     y := y sample + sin (random k * PI * 2)
                     * (lo + random (S (S k)) * (lo + minDist - lo));
     radius := 5;
     index := 0 |}.

(** Options of the sampler with a fixed radius: a square of side 20, the
    default minimum distance and no try. *)
Definition fixed_square20 : FixedRadius.Options :=
  {| FixedRadius.bounds :=
       {| bounds_x := 0; bounds_y := 0; width := 20; height := 20 |};
     FixedRadius.minDist := None;
     FixedRadius.maxTries := Some 0%Z |}.

Definition sample55 : Sample := {| x := 5; y := 5; radius := 5; index := 0 |}.

Definition sample1412 : Sample := {| x := 14; y := 12; radius := 5; index := 0 |}.
Definition sample66 : Sample := {| x := 6; y := 6; radius := 5; index := 0 |}.

(** * Properties *)

(** ** Comparisons *)

Lemma Rltb_true (a b : R) : Rltb a b = true <-> a < b.
Proof. unfold Rltb; destruct (Rlt_dec a b); split; (lra || discriminate || trivial). Qed.

Lemma Rltb_false (a b : R) : Rltb a b = false <-> b <= a.
Proof. unfold Rltb; destruct (Rlt_dec a b); split; (lra || discriminate || trivial). Qed.

Lemma Rleb_true (a b : R) : Rleb a b = true <-> a <= b.
Proof. unfold Rleb; destruct (Rle_dec a b); split; (lra || discriminate || trivial). Qed.

Lemma Rleb_false (a b : R) : Rleb a b = false <-> b < a.
Proof. unfold Rleb; destruct (Rle_dec a b); split; (lra || discriminate || trivial). Qed.

Lemma Rgeb_true (a b : R) : Rgeb a b = true <-> b <= a.
Proof. apply Rleb_true. Qed.

Lemma Rgeb_false (a b : R) : Rgeb a b = false <-> a < b.
Proof. apply Rleb_false. Qed.

Lemma isInBounds_true s col row cols rows b :
  isInBounds s col row cols rows b = true <->
  (col < cols)%Z /\ (row < rows)%Z /\
  0 <= x s - radius s /\ x s + radius s <= width b /\
  0 <= y s - radius s /\ y s + radius s <= height b.
Proof.
  unfold isInBounds.
  rewrite !andb_true_iff, !Z.ltb_lt, !Rgeb_true, !Rleb_true. tauto.
Qed.

(** ** The square root of two *)

Lemma sqrt2_pos : 0 < sqrt 2.
Proof. apply sqrt_lt_R0; lra. Qed.

Lemma sqrt2_sqr : sqrt 2 * sqrt 2 = 2.
Proof. apply sqrt_sqrt; lra. Qed.

Lemma sqrt2_bounds : 1.4142 < sqrt 2 < 1.4143.
Proof.
  pose proof sqrt2_pos as Hp. pose proof sqrt2_sqr as Hs.
  split; apply Rnot_le_lt; intros Hc; nra.
Qed.

Lemma getRadiusForSize_abs (sz : R) : getRadiusForSize sz = Rabs sz * sqrt 2 / 2.
Proof.
  unfold getRadiusForSize.
  replace (sz ^ 2 * 2) with (Rsqr sz * 2) by (unfold Rsqr; ring).
  rewrite sqrt_mult by (try apply Rle_0_sqr; lra).
  rewrite sqrt_Rsqr_abs. lra.
Qed.

Lemma getRadiusForSize_pos (sz : R) : 0 < sz -> 0 < getRadiusForSize sz <= sz.
Proof.
  intros Hsz. rewrite getRadiusForSize_abs, Rabs_right by lra.
  pose proof sqrt2_bounds. nra.
Qed.

(** ** Array accesses at a drawn index *)

Lemma Zfloor_draw_range (u : R) (n : nat) :
  0 <= u < 1 -> (0 < n)%nat ->
  (0 <= Zfloor (u * INR n) < Z.of_nat n)%Z.
Proof.
  intros Hu Hn.
  assert (Hn' : 0 < INR n) by (apply lt_0_INR; lia).
  pose proof (Zfloor_bound (u * INR n)) as Hb.
  split.
  - apply Zfloor_lub. simpl. nra.
  - apply lt_IZR. rewrite <- INR_IZR_INZ. nra.
Qed.

Lemma array_get_Some {A : Type} (a : list A) (i : Z) (v : A) :
  array_get a i = Some v <-> (0 <= i)%Z /\ a !! Z.to_nat i = Some v.
Proof.
  unfold array_get. destruct (Z.ltb_spec i 0); split; intros H'.
  - discriminate.
  - lia.
  - split; [lia | exact H'].
  - apply H'.
Qed.

Lemma array_get_bounds {A : Type} (a : list A) (i : Z) (v : A) :
  array_get a i = Some v -> (0 <= i < Z.of_nat (length a))%Z.
Proof.
  intros [Hi Hl]%array_get_Some. apply lookup_lt_Some in Hl. lia.
Qed.

Lemma array_get_draw {A : Type} (a : list A) (u : R) :
  0 <= u < 1 -> a <> [] ->
  exists v, array_get a (Zfloor (u * INR (length a))) = Some v.
Proof.
  intros Hu Ha.
  assert (Hlen : (0 < length a)%nat) by (destruct a; simpl; [congruence | lia]).
  pose proof (Zfloor_draw_range u (length a) Hu Hlen) as Hr.
  destruct (lookup_lt_is_Some_2 a (Z.to_nat (Zfloor (u * INR (length a)))))
    as [v Hv]; [lia |].
  exists v. apply array_get_Some. split; [lia | exact Hv].
Qed.

(** ** What the two constructors return *)

Section Creation.

Variable random : nat -> R.

Lemma createFirstSample_eq (b : Bounds) (image : Image) (c : bool) (k : nat) :
  createFirstSample random b image c k =
  Ok (firstSampleAt random b image c k, S (S k)).
Proof. destruct b; reflexivity. Qed.

Lemma createSampleFromSample_eq s imgs m c k image :
  array_get imgs (Zfloor (random k * INR (length imgs))) = Some image ->
  createSampleFromSample random s imgs m c k =
  Ok (candidateAt random s image (Zfloor (random k * INR (length imgs))) m c k,
      S (S (S (S k)))).
Proof.
  intros Hget. unfold createSampleFromSample, mbind, M_bind, Math_random.
  rewrite Hget. reflexivity.
Qed.

Lemma createSampleFromSample_inv s imgs m c k cand k' :
  createSampleFromSample random s imgs m c k = Ok (cand, k') ->
  exists image,
    array_get imgs (Zfloor (random k * INR (length imgs))) = Some image /\
    cand = candidateAt random s image (Zfloor (random k * INR (length imgs))) m c k /\
    k' = S (S (S (S k))).
Proof.
  intros Hc.
  destruct (array_get imgs (Zfloor (random k * INR (length imgs))))
    as [image|] eqn:Hget.
  - rewrite (createSampleFromSample_eq _ _ _ _ _ _ Hget) in Hc.
    injection Hc as <- <-. eauto.
  - unfold createSampleFromSample, mbind, M_bind, Math_random in Hc.
    rewrite Hget in Hc. discriminate.
Qed.

End Creation.

(** ** Radius of a created sample *)

(** C9: the radius of a sample is fixed when the sample is created, from the
    size of the image chosen for it: the size itself for circles, and
    [sqrt (2 * size ^ 2) / 2] for squares, which is [size * sqrt 2 / 2] for
    a size that is not negative.  This holds for the first sample and for
    every candidate. *)
Theorem radius_derived_at_creation :
  (forall sz : R, 0 <= sz -> getRadiusForSize sz = sz * sqrt 2 / 2) /\
  (forall random b image c k,
     exists s, createFirstSample random b image c k = Ok (s, S (S k)) /\
       radius s = if c then size image else sqrt (2 * size image ^ 2) / 2) /\
  (forall random seed imgs m c k cand k',
     createSampleFromSample random seed imgs m c k = Ok (cand, k') ->
     exists image, array_get imgs (index cand) = Some image /\
       radius cand = if c then size image else sqrt (2 * size image ^ 2) / 2).
Proof.
  split; [| split].
  - intros sz Hsz. rewrite getRadiusForSize_abs, Rabs_right; lra.
  - intros random b image c k. eexists. split.
    + apply createFirstSample_eq.
    + unfold firstSampleAt; cbn [radius]. destruct c; [reflexivity |].
      unfold getRadiusForSize.
      replace (size image ^ 2 * 2) with (2 * size image ^ 2) by ring.
      lra.
  - intros random seed imgs m c k cand k' Hc.
    apply createSampleFromSample_inv in Hc as (image & Hget & -> & _).
    exists image. split; [exact Hget |].
    unfold candidateAt; cbn [radius]. destruct c; [reflexivity |].
    unfold getRadiusForSize. simpl.
    replace (size image * (size image * 1) * 2)
      with (2 * (size image * (size image * 1))) by ring.
    lra.
Qed.

(** ** Distance of a candidate from its seed *)

Lemma hypot_between (c s dx dy lo hi : R) :
  c * c + s * s = 1 -> 0 <= lo ->
  lo <= dx <= hi -> lo <= dy <= hi ->
  lo <= Math_hypot (c * dx) (s * dy) <= hi.
Proof.
  intros Hcs Hlo Hdx Hdy. unfold Math_hypot.
  assert (Hc2 : 0 <= c * c) by nra.
  assert (Hs2 : 0 <= s * s) by nra.
  assert (Hdx2 : lo * lo <= dx * dx <= hi * hi) by nra.
  assert (Hdy2 : lo * lo <= dy * dy <= hi * hi) by nra.
  split.
  - rewrite <- (sqrt_square lo) at 1 by lra.
    apply sqrt_le_1_alt. nra.
  - rewrite <- (sqrt_square hi) at 1 by lra.
    apply sqrt_le_1_alt. nra.
Qed.

Lemma cos_sin_unit (a : R) : cos a * cos a + sin a * sin a = 1.
Proof. pose proof (sin2_cos2 a) as H. unfold Rsqr in H. lra. Qed.

Lemma candidateAt_distance random s image i m c k :
  0 <= random (S (S k)) < 1 -> 0 <= random (S (S (S k))) < 1 ->
  0 <= m -> 0 <= m + size image + radius s ->
  let cand := candidateAt random s image i m c k in
  m + size image + radius s
    <= Math_hypot (x cand - x s) (y cand - y s)
    <= m + size image + radius s + m.
Proof.
  intros Hu Hv Hm Hlo. simpl.
  match goal with
  | |- _ <= Math_hypot ?a ?b <= _ =>
      replace a with (cos (random (S k) * PI * 2)
                      * (m + size image + radius s + random (S (S k)) * m)) by ring;
      replace b with (sin (random (S k) * PI * 2)
                      * (m + size image + radius s + random (S (S (S k))) * m)) by ring
  end.
  apply hypot_between; [apply cos_sin_unit | lra | nra | nra].
Qed.

(** C7: the sample [createSampleFromSample] returns for a seed [s] lies at
    a distance from [s] between [minDist + s.radius + size] and that plus
    [minDist], [size] being the size of the image drawn for it; and a
    sample is returned, for every non-empty image list and every draws in
    [0, 1). *)
Theorem candidate_distance_from_seed random s imgs m c k :
  (forall j, 0 <= random j < 1) ->
  imgs <> [] ->
  (forall image, image ∈ imgs -> 0 < size image) ->
  0 <= m -> 0 <= radius s ->
  exists cand image,
    createSampleFromSample random s imgs m c k = Ok (cand, (k + 4)%nat) /\
    array_get imgs (index cand) = Some image /\
    m + radius s + size image
      <= Math_hypot (x cand - x s) (y cand - y s)
      <= m + radius s + size image + m.
Proof.
  intros Hrnd Himgs Hpos Hm Hr.
  destruct (array_get_draw imgs (random k) (Hrnd k) Himgs) as [image Hget].
  exists (candidateAt random s image (Zfloor (random k * INR (length imgs))) m c k), image.
  split; [| split].
  - rewrite (createSampleFromSample_eq _ _ _ _ _ _ _ Hget).
    do 2 f_equal. lia.
  - exact Hget.
  - assert (Hsz : 0 < size image).
    { apply Hpos. apply array_get_Some in Hget as [_ Hl].
      eapply list_elem_of_lookup_2; exact Hl. }
    pose proof (candidateAt_distance random s image
                  (Zfloor (random k * INR (length imgs))) m c k
                  (Hrnd _) (Hrnd _) Hm) as Hd.
    simpl in Hd. simpl. lra.
Qed.

(** ** The first sample and the empty result *)

Lemma sampler_eq random B imgs c m t fuel k image0 :
  array_get imgs 0 = Some image0 ->
  let s := firstSampleAt random B image0 c k in
  let col := Zfloor (x s / CELL_SIZE imgs m) in
  let row := Zfloor (y s / CELL_SIZE imgs m) in
  sampler random B imgs c m t fuel k =
  if negb (isInBounds s col row (COLS B imgs m) (ROWS B imgs m) B)
  then Ok ({| GRID := ∅; ACTIVE := [] |}, S (S k))
  else whileLoop random B imgs c m t col row fuel
         {| GRID := {[ getIndexInGrid s (CELL_SIZE imgs m) (COLS B imgs m) := s ]};
            ACTIVE := [s] |} (S (S k)).
Proof.
  intros Hget s col row. unfold sampler, mbind, M_bind.
  rewrite Hget. cbn [defined mret M_ret].
  rewrite createFirstSample_eq. fold s. fold col. fold row.
  destruct (negb _); reflexivity.
Qed.

Lemma isInBounds_narrow s col row cols rows b :
  0 < radius s -> width b <= 0 \/ height b <= 0 ->
  isInBounds s col row cols rows b = false.
Proof.
  intros Hr Hwh.
  destruct (isInBounds s col row cols rows b) eqn:Hin; [| reflexivity].
  apply isInBounds_true in Hin. lra.
Qed.

Lemma firstSampleAt_radius_pos random b image c k :
  0 < size image -> 0 < radius (firstSampleAt random b image c k).
Proof.
  intros Hsz. unfold firstSampleAt; cbn [radius].
  destruct c; [exact Hsz | apply getRadiusForSize_pos, Hsz].
Qed.

(** C4: when the width or the height of the bounds is zero or negative,
    and whenever the first sample fails the in-bounds test, the sampler
    hands back the empty array: the grid and the active list are empty, and
    only the two draws of the first sample were made, whatever the fuel of
    the loop, so that no iteration of the loop was attempted. *)
Theorem degenerate_bounds_give_empty_result random options fuel k image0 :
  hasValidImageList (images options) = true ->
  array_get (images options) 0 = Some image0 ->
  0 < size image0 ->
  let BOUNDS := bounds options in
  let IMAGES := images options in
  let IS_CIRCLE := default false (isCircle options) in
  let MIN_DIST := default DEFAULT_MIN_DIST (minDist options) in
  let MAX_TRIES := default DEFAULT_MAX_TRIES (maxTries options) in
  let s := firstSampleAt random BOUNDS image0 IS_CIRCLE k in
  width BOUNDS <= 0 \/ height BOUNDS <= 0 \/
  isInBounds s (Zfloor (x s / CELL_SIZE IMAGES MIN_DIST))
               (Zfloor (y s / CELL_SIZE IMAGES MIN_DIST))
               (COLS BOUNDS IMAGES MIN_DIST) (ROWS BOUNDS IMAGES MIN_DIST)
               BOUNDS = false ->
  sampler random BOUNDS IMAGES IS_CIRCLE MIN_DIST MAX_TRIES fuel k
    = Ok ({| GRID := ∅; ACTIVE := [] |}, S (S k)) /\
  poissonImageSampler random options fuel k = Ok (∅, S (S k)).
Proof.
  intros Hvalid Hget Hsz BOUNDS IMAGES IS_CIRCLE MIN_DIST MAX_TRIES s Hcase.
  assert (Hout : isInBounds s (Zfloor (x s / CELL_SIZE IMAGES MIN_DIST))
               (Zfloor (y s / CELL_SIZE IMAGES MIN_DIST))
               (COLS BOUNDS IMAGES MIN_DIST) (ROWS BOUNDS IMAGES MIN_DIST)
               BOUNDS = false).
  { destruct Hcase as [Hw | [Hh | Hout]]; [| | exact Hout];
      (apply isInBounds_narrow;
       [apply firstSampleAt_radius_pos, Hsz | tauto]). }
  assert (Hs : sampler random BOUNDS IMAGES IS_CIRCLE MIN_DIST MAX_TRIES fuel k
               = Ok ({| GRID := ∅; ACTIVE := [] |}, S (S k))).
  { rewrite (sampler_eq _ _ _ _ _ _ _ _ _ Hget).
    unfold s, BOUNDS, IMAGES, IS_CIRCLE, MIN_DIST, MAX_TRIES in *.
    cbv zeta. rewrite Hout. reflexivity. }
  split; [exact Hs |].
  unfold poissonImageSampler. rewrite Hvalid. cbn [negb].
  unfold mbind, M_bind.
  unfold s, BOUNDS, IMAGES, IS_CIRCLE, MIN_DIST, MAX_TRIES in *.
  rewrite Hs. reflexivity.
Qed.

(** ** The loop as a sequence of moves *)

Section LoopFacts.

Variables (random : nat -> R) (BOUNDS : Bounds) (IMAGES : list Image)
          (IS_CIRCLE : bool) (MIN_DIST : R) (MAX_TRIES : Z) (col row : Z).

Hypothesis random_range : forall j, 0 <= random j < 1.
Hypothesis images_nonempty : IMAGES <> [].

Local Abbreviation steps :=
  (rtc (step random BOUNDS IMAGES IS_CIRCLE MIN_DIST col row)).
Local Abbreviation tryLoop' :=
  (tryLoop random BOUNDS IMAGES IS_CIRCLE MIN_DIST col row).
Local Abbreviation whileBody' :=
  (whileBody random BOUNDS IMAGES IS_CIRCLE MIN_DIST MAX_TRIES col row).
Local Abbreviation whileLoop' :=
  (whileLoop random BOUNDS IMAGES IS_CIRCLE MIN_DIST MAX_TRIES col row).

Lemma createSampleFromSample_total seed k :
  exists cand,
    createSampleFromSample random seed IMAGES MIN_DIST IS_CIRCLE k
    = Ok (cand, S (S (S (S k)))).
Proof.
  destruct (array_get_draw IMAGES (random k) (random_range k) images_nonempty)
    as [image Hget].
  eexists. apply createSampleFromSample_eq, Hget.
Qed.

(** The [for] loop runs all its [n] iterations: it generates [n] candidates
    from the seed, four draws each, and appends the accepted ones to the
    active list in the order of their generation. *)
Lemma tryLoop_spec (n : nat) (seed : Sample) :
  forall (st : State) (found : bool) (k : nat),
    seed ∈ ACTIVE st ->
    exists (cands accepted : list Sample) (st' : State) (found' : bool),
      tryLoop' n seed st found k = Ok ((st', found'), (k + 4 * n)%nat) /\
      length cands = n /\
      (forall j c, cands !! j = Some c ->
         createSampleFromSample random seed IMAGES MIN_DIST IS_CIRCLE
           (k + 4 * j)%nat = Ok (c, (k + 4 * S j)%nat)) /\
      sublist accepted cands /\
      ACTIVE st' = ACTIVE st ++ accepted /\
      (found' = true <-> found = true \/ accepted <> []) /\
      steps st st'.
Proof.
  induction n as [|n IH]; intros st found k Hseed.
  - exists [], [], st, found. simpl.
    split; [unfold mret, M_ret; do 2 f_equal; lia |].
    split; [reflexivity |].
    split; [intros j c Hj; discriminate |].
    split; [constructor |].
    split; [symmetry; apply app_nil_r |].
    split; [split; [tauto | intros [H | H]; [exact H | congruence]] |].
    apply rtc_refl.
  - destruct (createSampleFromSample_total seed k) as [cand Hcand].
    assert (Hidx : forall cands' : list Sample,
      (forall j c, cands' !! j = Some c ->
         createSampleFromSample random seed IMAGES MIN_DIST IS_CIRCLE
           (S (S (S (S k))) + 4 * j)%nat
         = Ok (c, (S (S (S (S k))) + 4 * S j)%nat)) ->
      forall j c, (cand :: cands') !! j = Some c ->
         createSampleFromSample random seed IMAGES MIN_DIST IS_CIRCLE
           (k + 4 * j)%nat = Ok (c, (k + 4 * S j)%nat)).
    { intros cands' Hc' [|j] c Hj; simpl in Hj.
      - injection Hj as <-. rewrite Nat.mul_0_r, Nat.add_0_r, Hcand.
        do 2 f_equal. lia.
      - specialize (Hc' j c Hj).
        replace (k + 4 * S j)%nat with (S (S (S (S k))) + 4 * j)%nat by lia.
        rewrite Hc'. do 2 f_equal. lia. }
    cbn [tryLoop]. unfold mbind at 1, M_bind at 1. rewrite Hcand.
    destruct (isInBounds cand col row _ _ BOUNDS) eqn:Hin; cbn [negb];
      [destruct (isAllowedToDraw cand _ _ MIN_DIST (GRID st) _) eqn:Hal;
       cbn [negb] |].
    + destruct (IH (place BOUNDS IMAGES MIN_DIST cand st) true (S (S (S (S k)))))
        as (cands & accepted & st' & found' & Hrun & Hlen & Hgen & Hsub & Hact
            & Hfound & Hsteps).
      { simpl. apply elem_of_app. left. exact Hseed. }
      exists (cand :: cands), (cand :: accepted), st', found'.
      split; [rewrite Hrun; do 2 f_equal; lia |].
      split; [simpl; congruence |].
      split; [apply Hidx, Hgen |].
      split; [apply sublist_skip, Hsub |].
      split; [rewrite Hact; simpl; rewrite <- app_assoc; reflexivity |].
      split; [split; [intros _; right; discriminate | intros _; tauto] |].
      eapply rtc_l; [| exact Hsteps].
      eapply step_place; eauto.
    + destruct (IH st found (S (S (S (S k))))) as
        (cands & accepted & st' & found' & Hrun & Hlen & Hgen & Hsub & Hact
         & Hfound & Hsteps); [exact Hseed |].
      exists (cand :: cands), accepted, st', found'.
      split; [rewrite Hrun; do 2 f_equal; lia |].
      split; [simpl; congruence |].
      split; [apply Hidx, Hgen |].
      split; [apply sublist_cons, Hsub |].
      auto.
    + destruct (IH st found (S (S (S (S k))))) as
        (cands & accepted & st' & found' & Hrun & Hlen & Hgen & Hsub & Hact
         & Hfound & Hsteps); [exact Hseed |].
      exists (cand :: cands), accepted, st', found'.
      split; [rewrite Hrun; do 2 f_equal; lia |].
      split; [simpl; congruence |].
      split; [apply Hidx, Hgen |].
      split; [apply sublist_cons, Hsub |].
      auto.
Qed.


(** One iteration of the [while] loop on a non-empty active list. *)
Lemma whileBody_spec (st : State) (k : nat) :
  ACTIVE st <> [] ->
  let i := Zfloor (random k * INR (length (ACTIVE st))) in
  let n := Z.to_nat MAX_TRIES in
  exists (seed : Sample) (cands accepted : list Sample) (st' : State),
    array_get (ACTIVE st) i = Some seed /\
    whileBody' st k = Ok (st', (k + 1 + 4 * n)%nat) /\
    length cands = n /\
    (forall j c, cands !! j = Some c ->
       createSampleFromSample random seed IMAGES MIN_DIST IS_CIRCLE
         (k + 1 + 4 * j)%nat = Ok (c, (k + 1 + 4 * S j)%nat)) /\
    sublist accepted cands /\
    (accepted = [] -> ACTIVE st' = splice1 (ACTIVE st) i) /\
    (accepted <> [] -> ACTIVE st' = ACTIVE st ++ accepted) /\
    steps st st'.
Proof.
  intros Hne i n.
  destruct (array_get_draw (ACTIVE st) (random k) (random_range k) Hne)
    as [seed Hseed]. fold i in Hseed.
  assert (Hin : seed ∈ ACTIVE st).
  { apply array_get_Some in Hseed as [_ Hl].
    eapply list_elem_of_lookup_2; exact Hl. }
  destruct (tryLoop_spec n seed st false (S k) Hin)
    as (cands & accepted & st1 & found' & Hrun & Hlen & Hgen & Hsub & Hact
        & Hfound & Hsteps).
  assert (Hgen' : forall j c, cands !! j = Some c ->
       createSampleFromSample random seed IMAGES MIN_DIST IS_CIRCLE
         (k + 1 + 4 * j)%nat = Ok (c, (k + 1 + 4 * S j)%nat)).
  { intros j c Hj. specialize (Hgen j c Hj).
    replace (k + 1 + 4 * j)%nat with (S k + 4 * j)%nat by lia.
    rewrite Hgen. do 2 f_equal. lia. }
  assert (Hbody : whileBody' st k =
    if negb found'
    then Ok ({| GRID := GRID st1; ACTIVE := splice1 (ACTIVE st1) i |},
             (k + 1 + 4 * n)%nat)
    else Ok (st1, (k + 1 + 4 * n)%nat)).
  { unfold whileBody, mbind, M_bind, Math_random. fold i. rewrite Hseed.
    cbn [defined mret M_ret]. fold n. rewrite Hrun.
    replace (S k + 4 * n)%nat with (k + 1 + 4 * n)%nat by lia.
    destruct found'; reflexivity. }
  destruct accepted as [|a accepted].
  - assert (found' = false) as ->.
    { destruct found'; [| reflexivity].
      destruct Hfound as [Hf _]. destruct (Hf eq_refl); congruence. }
    rewrite app_nil_r in Hact.
    exists seed, cands, [], {| GRID := GRID st1; ACTIVE := splice1 (ACTIVE st1) i |}.
    repeat split; try assumption.
    + intros _. simpl. rewrite Hact. reflexivity.
    + congruence.
    + eapply rtc_r; [exact Hsteps | apply step_remove].
  - assert (found' = true) as ->.
    { apply Hfound. right. discriminate. }
    exists seed, cands, (a :: accepted), st1.
    repeat split; try assumption.
    + discriminate.
    + intros _. exact Hact.
Qed.

Lemma whileLoop_steps (fuel : nat) :
  forall (st : State) (k : nat) (st' : State) (k' : nat),
    whileLoop' fuel st k = Ok (st', k') ->
    steps st st' /\ ACTIVE st' = [].
Proof.
  induction fuel as [|fuel IH]; intros st k st' k' Hrun.
  - simpl in Hrun. destruct (ACTIVE st) eqn:Hact; [| discriminate].
    injection Hrun as <- <-. split; [apply rtc_refl | exact Hact].
  - simpl in Hrun. destruct (ACTIVE st) as [|a l] eqn:Hact.
    + injection Hrun as <- <-. split; [apply rtc_refl | exact Hact].
    + destruct (whileBody_spec st k) as
        (seed & cands & accepted & st1 & _ & Hbody & _ & _ & _ & _ & _ & Hsteps).
      { rewrite Hact. discriminate. }
      unfold mbind, M_bind in Hrun. rewrite Hbody in Hrun.
      destruct (IH _ _ _ _ Hrun) as [Hsteps' Hempty].
      split; [| exact Hempty].
      eapply rtc_trans; eassumption.
Qed.

(** The loop never throws: under the contract of [Math.random] all array
    accesses are defined. *)
Lemma whileLoop_no_TypeError (fuel : nat) :
  forall (st : State) (k : nat), whileLoop' fuel st k <> TypeError.
Proof.
  induction fuel as [|fuel IH]; intros st k.
  - simpl. destruct (ACTIVE st); discriminate.
  - simpl. destruct (ACTIVE st) as [|a l] eqn:Hact; [discriminate |].
    destruct (whileBody_spec st k) as
      (seed & cands & accepted & st1 & _ & Hbody & _).
    { rewrite Hact. discriminate. }
    unfold mbind, M_bind. rewrite Hbody. apply IH.
Qed.

End LoopFacts.

(** ** Geometry of the grid *)

Lemma fold_left_Rmax_ge (l : list R) (a : R) :
  a <= fold_left Rmax l a /\ forall b, b ∈ l -> b <= fold_left Rmax l a.
Proof.
  revert a. induction l as [|c l IH]; intros a; simpl.
  - split; [lra | intros b Hb; inversion Hb].
  - destruct (IH (Rmax a c)) as [H1 H2].
    pose proof (Rmax_l a c). pose proof (Rmax_r a c).
    split; [lra |].
    intros b [-> | Hb]%elem_of_cons; [lra | apply H2, Hb].
Qed.

Lemma Math_max_ge (l : list R) (b : R) : b ∈ l -> b <= Math_max l.
Proof.
  destruct l as [|a l]; [intros Hb; inversion Hb |].
  simpl. destruct (fold_left_Rmax_ge l a) as [H1 H2].
  intros [-> | Hb]%elem_of_cons; [exact H1 | apply H2, Hb].
Qed.

Lemma fold_left_Rmin_pos (l : list R) (a : R) :
  0 < a -> (forall b, b ∈ l -> 0 < b) -> 0 < fold_left Rmin l a.
Proof.
  revert a. induction l as [|c l IH]; intros a Ha Hl; simpl; [exact Ha |].
  apply IH.
  - apply Rmin_glb_lt; [exact Ha | apply Hl; left].
  - intros b Hb. apply Hl. right. exact Hb.
Qed.

Lemma Math_min_pos (l : list R) :
  l <> [] -> (forall b, b ∈ l -> 0 < b) -> 0 < Math_min l.
Proof.
  destruct l as [|a l]; [congruence |]. intros _ Hl. simpl.
  apply fold_left_Rmin_pos; [apply Hl; left |].
  intros b Hb. apply Hl. right. exact Hb.
Qed.

Lemma CELL_SIZE_pos (imgs : list Image) (m : R) :
  imgs <> [] -> (forall image, image ∈ imgs -> 0 < size image) -> 0 <= m ->
  0 < CELL_SIZE imgs m.
Proof.
  intros Hne Hpos Hm. unfold CELL_SIZE, minRadius.
  assert (0 < Math_min (map size imgs)).
  { apply Math_min_pos.
    - destruct imgs; [congruence | discriminate].
    - intros b (image & -> & Hi)%list_elem_of_fmap. apply Hpos, Hi. }
  apply Rdiv_lt_0_compat; [lra | apply sqrt2_pos].
Qed.

Lemma hypot_sym (a b c d : R) : Math_hypot (a - b) (c - d) = Math_hypot (b - a) (d - c).
Proof. unfold Math_hypot. f_equal. ring. Qed.

Lemma hypot_abs_l (a b : R) : Rabs a <= Math_hypot a b.
Proof.
  unfold Math_hypot. rewrite <- sqrt_Rsqr_abs.
  apply sqrt_le_1_alt. unfold Rsqr. nra.
Qed.

Lemma hypot_abs_r (a b : R) : Rabs b <= Math_hypot a b.
Proof.
  unfold Math_hypot. rewrite <- sqrt_Rsqr_abs.
  apply sqrt_le_1_alt. unfold Rsqr. nra.
Qed.

(** Two points closer than [D] on one axis lie at most [ceil (D / cs)]
    cells apart on that axis. *)
Lemma Zfloor_cells_apart (cs a b D : R) :
  0 < cs -> Rabs (a - b) < D ->
  (Z.abs (Zfloor (a / cs) - Zfloor (b / cs)) <= Zceil (D / cs))%Z.
Proof.
  intros Hcs Hab.
  assert (Hinv : 0 < / cs) by (apply Rinv_0_lt_compat, Hcs).
  assert (Hd : a / cs - b / cs < D / cs /\ b / cs - a / cs < D / cs).
  { unfold Rdiv. apply Rabs_def2 in Hab. split; nra. }
  pose proof (Zfloor_bound (a / cs)) as Ha.
  pose proof (Zfloor_bound (b / cs)) as Hb.
  pose proof (Zceil_bound (D / cs)) as Ht.
  assert (H1 : (Zfloor (a / cs) - Zfloor (b / cs) < Zceil (D / cs) + 1)%Z).
  { apply lt_IZR. rewrite minus_IZR, plus_IZR. lra. }
  assert (H2 : (Zfloor (b / cs) - Zfloor (a / cs) < Zceil (D / cs) + 1)%Z).
  { apply lt_IZR. rewrite minus_IZR, plus_IZR. lra. }
  lia.
Qed.

Lemma elem_of_scan (range i : Z) :
  (Z.abs i <= range)%Z -> In i (seqZ (- range) (2 * range + 1)).
Proof.
  intros Hi. apply list_elem_of_In, elem_of_seqZ. lia.
Qed.

(** The scan of [isAllowedToDraw] sees every sample stored at its own index
    whose cell is within [range] of the cell of the candidate. *)
Lemma scan_complete c cs cols m (grid : SampleList) range n :
  isAllowedToDraw c cs cols m grid range = true ->
  grid !! getIndexInGrid n cs cols = Some n ->
  (Z.abs (Zfloor (x n / cs) - Zfloor (x c / cs)) <= range)%Z ->
  (Z.abs (Zfloor (y n / cs) - Zfloor (y c / cs)) <= range)%Z ->
  m + radius c + radius n <= Math_hypot (x n - x c) (y n - y c).
Proof.
  intros Hal Hn Hi Hj. unfold isAllowedToDraw in Hal.
  rewrite forallb_forall in Hal.
  specialize (Hal _ (elem_of_scan _ _ Hi)). rewrite forallb_forall in Hal.
  specialize (Hal _ (elem_of_scan _ _ Hj)).
  unfold getIndexInGrid in Hn.
  replace (Zfloor (x c / cs) + (Zfloor (x n / cs) - Zfloor (x c / cs))
           + (Zfloor (y c / cs) + (Zfloor (y n / cs) - Zfloor (y c / cs))) * cols)%Z
    with (Zfloor (x n / cs) + Zfloor (y n / cs) * cols)%Z in Hal by lia.
  rewrite Hn in Hal. simpl in Hal.
  apply negb_true_iff, Rltb_false in Hal. exact Hal.
Qed.

(** An accepted candidate keeps the required distance from every sample of
    the grid, when the samples are stored at their own index and no radius
    exceeds [rmax], the scan reaching [ceil ((m + 2 rmax) / cs)] cells. *)
Lemma allowed_implies_spaced c cs cols m (grid : SampleList) rmax :
  0 < cs ->
  isAllowedToDraw c cs cols m grid (Zceil ((m + rmax * 2) / cs)) = true ->
  radius c <= rmax ->
  (forall i n, grid !! i = Some n ->
     i = getIndexInGrid n cs cols /\ radius n <= rmax) ->
  forall i n, grid !! i = Some n ->
    m + radius c + radius n <= Math_hypot (x n - x c) (y n - y c).
Proof.
  intros Hcs Hal Hrc Hgrid i n Hn.
  destruct (Hgrid i n Hn) as [-> Hrn].
  destruct (Rle_or_lt (m + radius c + radius n)
              (Math_hypot (x n - x c) (y n - y c))) as [Hok | Hclose];
    [exact Hok |].
  pose proof (hypot_abs_l (x n - x c) (y n - y c)) as Hx.
  pose proof (hypot_abs_r (x n - x c) (y n - y c)) as Hy.
  eapply scan_complete; [exact Hal | exact Hn | |];
    apply Zfloor_cells_apart; (exact Hcs || lra).
Qed.

(** Conversely a candidate far enough from all the samples is allowed. *)
Lemma isAllowedToDraw_far c cs cols m (grid : SampleList) range :
  (forall i n, grid !! i = Some n ->
     m + radius c + radius n <= Math_hypot (x n - x c) (y n - y c)) ->
  isAllowedToDraw c cs cols m grid range = true.
Proof.
  intros Hfar. unfold isAllowedToDraw.
  apply forallb_forall. intros i _. apply forallb_forall. intros j _.
  destruct (grid !! _) as [n|] eqn:Hn; [| reflexivity].
  simpl. apply negb_true_iff, Rltb_false. eapply Hfar, Hn.
Qed.

(** ** Invariants of the loop *)

Lemma steps_invariant {A : Type} (R : relation A) (P : A -> Prop) :
  (forall a b, P a -> R a b -> P b) ->
  forall a b, rtc R a b -> P a -> P b.
Proof.
  intros Hstep a b Hab. induction Hab as [|a b c Hab Hbc IH]; [tauto |].
  intros Ha. apply IH. eapply Hstep; eassumption.
Qed.

Lemma validated_hasValidImageList (o : Options) :
  validated o -> hasValidImageList (images o) = true.
Proof.
  intros (_ & _ & Hne & Hpos & _). unfold hasValidImageList.
  apply andb_true_iff. split.
  - apply Nat.ltb_lt. destruct (images o); [congruence | simpl; lia].
  - apply forallb_forall. intros v Hv%list_elem_of_In.
    apply negb_true_iff. unfold Reqb.
    destruct (Req_dec_T (size v) 0) as [E|]; [| reflexivity].
    specialize (Hpos v Hv). lra.
Qed.

Lemma array_get_elem_of {A : Type} (a : list A) (i : Z) (v : A) :
  array_get a i = Some v -> v ∈ a.
Proof.
  intros [_ Hl]%array_get_Some. eapply list_elem_of_lookup_2, Hl.
Qed.

(** What a run of the validated sampler amounts to: the empty result, or a
    sequence of moves from the state holding the first sample. *)
Lemma sampler_cases random B imgs c m t fuel k st k' image0 :
  (forall j, 0 <= random j < 1) ->
  array_get imgs 0 = Some image0 ->
  sampler random B imgs c m t fuel k = Ok (st, k') ->
  let s := firstSampleAt random B image0 c k in
  let col := Zfloor (x s / CELL_SIZE imgs m) in
  let row := Zfloor (y s / CELL_SIZE imgs m) in
  st = {| GRID := ∅; ACTIVE := [] |} \/
  (isInBounds s col row (COLS B imgs m) (ROWS B imgs m) B = true /\
   rtc (step random B imgs c m col row)
     {| GRID := {[ getIndexInGrid s (CELL_SIZE imgs m) (COLS B imgs m) := s ]};
        ACTIVE := [s] |} st /\
   ACTIVE st = []).
Proof.
  intros Hrnd Hget Hrun s col row.
  rewrite (sampler_eq _ _ _ _ _ _ _ _ _ Hget) in Hrun. cbv zeta in Hrun.
  fold s col row in Hrun.
  destruct (isInBounds s col row _ _ B) eqn:Hin; cbn [negb] in Hrun.
  - right. split; [reflexivity |].
    eapply whileLoop_steps; [exact Hrnd | | exact Hrun].
    intros ->. discriminate.
  - left. injection Hrun as <- _. reflexivity.
Qed.

Section Invariants.

Variables (random : nat -> R) (BOUNDS : Bounds) (IMAGES : list Image)
          (IS_CIRCLE : bool) (MIN_DIST : R) (col row : Z).

Hypothesis images_nonempty : IMAGES <> [].
Hypothesis images_positive : forall image, image ∈ IMAGES -> 0 < size image.
Hypothesis minDist_nonneg : 0 <= MIN_DIST.

Local Abbreviation cs := (CELL_SIZE IMAGES MIN_DIST).
Local Abbreviation cols := (COLS BOUNDS IMAGES MIN_DIST).
Local Abbreviation rmax := (maxRadius IMAGES).
Local Abbreviation step' := (step random BOUNDS IMAGES IS_CIRCLE MIN_DIST col row).

Lemma image_radius_le_max (image : Image) :
  image ∈ IMAGES ->
  (if IS_CIRCLE then size image else getRadiusForSize (size image)) <= rmax.
Proof.
  intros Hin. pose proof (images_positive image Hin) as Hpos.
  assert (Hle : size image <= rmax).
  { apply Math_max_ge, list_elem_of_fmap. eauto. }
  destruct IS_CIRCLE; [exact Hle |].
  pose proof (getRadiusForSize_pos _ Hpos). lra.
Qed.

Lemma candidate_radius_le_max seed k cand k' :
  createSampleFromSample random seed IMAGES MIN_DIST IS_CIRCLE k = Ok (cand, k') ->
  radius cand <= rmax.
Proof.
  intros (image & Hget & -> & _)%createSampleFromSample_inv.
  unfold candidateAt; cbn [radius].
  apply image_radius_le_max. eapply array_get_elem_of, Hget.
Qed.

Lemma step_stored st st' :
  stored cs cols rmax (GRID st) -> step' st st' ->
  stored cs cols rmax (GRID st').
Proof.
  intros Hst Hstep. destruct Hstep as [st seed cand k k' Hseed Hcand Hin Hal | st i];
    [| exact Hst].
  intros i n. simpl. rewrite lookup_insert_Some.
  intros [[<- <-] | [_ Hn]]; [| apply Hst, Hn].
  split; [reflexivity | eapply candidate_radius_le_max, Hcand].
Qed.

Lemma step_spaced st st' :
  stored cs cols rmax (GRID st) -> spaced MIN_DIST (GRID st) -> step' st st' ->
  spaced MIN_DIST (GRID st').
Proof.
  intros Hst Hsp Hstep.
  destruct Hstep as [st seed cand k k' Hseed Hcand Hin Hal | st i];
    [| exact Hsp].
  assert (Hfar : forall i n, GRID st !! i = Some n ->
            MIN_DIST + radius cand + radius n
            <= Math_hypot (x n - x cand) (y n - y cand)).
  { eapply allowed_implies_spaced; [| exact Hal | | exact Hst].
    - apply CELL_SIZE_pos; assumption.
    - eapply candidate_radius_le_max, Hcand. }
  intros i j a b Hij. simpl. rewrite !lookup_insert_Some.
  intros [[<- <-] | [Hi Ha]] [[<- <-] | [Hj Hb]].
  - congruence.
  - specialize (Hfar j b Hb). rewrite hypot_sym. exact Hfar.
  - specialize (Hfar i a Ha). lra.
  - exact (Hsp i j a b Hij Ha Hb).
Qed.

Lemma steps_stored_spaced st st' :
  rtc step' st st' ->
  stored cs cols rmax (GRID st) /\ spaced MIN_DIST (GRID st) ->
  stored cs cols rmax (GRID st') /\ spaced MIN_DIST (GRID st').
Proof.
  apply (steps_invariant step'
    (fun st => stored cs cols rmax (GRID st) /\ spaced MIN_DIST (GRID st))).
  intros a b [Hst Hsp] Hab.
  split; [eapply step_stored | eapply step_spaced]; eassumption.
Qed.

Lemma singleton_stored_spaced random' image0 k :
  image0 ∈ IMAGES ->
  let s := firstSampleAt random' BOUNDS image0 IS_CIRCLE k in
  stored cs cols rmax {[ getIndexInGrid s cs cols := s ]} /\
  spaced MIN_DIST {[ getIndexInGrid s cs cols := s ]}.
Proof.
  intros Hin s. split.
  - intros i n [<- <-]%lookup_singleton_Some. split; [reflexivity |].
    apply image_radius_le_max, Hin.
  - intros i j a b Hij [<- <-]%lookup_singleton_Some [<- <-]%lookup_singleton_Some.
    congruence.
Qed.

End Invariants.

Lemma poissonImageSampler_inv random o fuel k grid k' :
  hasValidImageList (images o) = true ->
  poissonImageSampler random o fuel k = Ok (grid, k') ->
  exists st,
    sampler random (bounds o) (images o) (default false (isCircle o))
      (default DEFAULT_MIN_DIST (minDist o))
      (default DEFAULT_MAX_TRIES (maxTries o)) fuel k = Ok (st, k') /\
    grid = GRID st.
Proof.
  intros Hvalid Hrun. unfold poissonImageSampler in Hrun.
  rewrite Hvalid in Hrun. cbn [negb] in Hrun. unfold mbind, M_bind in Hrun.
  destruct (sampler _ _ _ _ _ _ _ _) as [[st k1]| |]; try discriminate.
  injection Hrun as <- <-. eauto.
Qed.

Lemma validated_first_image (o : Options) :
  validated o ->
  exists image0, array_get (images o) 0 = Some image0 /\ image0 ∈ images o.
Proof.
  intros (_ & _ & Hne & _). destruct (images o) as [|image0 l]; [congruence |].
  exists image0. split; [reflexivity | left].
Qed.

(** ** Spacing of the samples of the result *)

(** C1: for validated inputs, two samples at different places of the
    returned grid lie at a distance of at least [minDist] plus their two
    radii. *)
Theorem spacing_invariant random (o : Options) fuel k (grid : SampleList) k' :
  (forall j, 0 <= random j < 1) ->
  validated o ->
  poissonImageSampler random o fuel k = Ok (grid, k') ->
  forall (i j : Z) (A B : Sample),
    i <> j -> grid !! i = Some A -> grid !! j = Some B ->
    default DEFAULT_MIN_DIST (minDist o) + radius A + radius B
      <= Math_hypot (x A - x B) (y A - y B).
Proof.
  intros Hrnd Hval Hrun.
  destruct (validated_first_image o Hval) as (image0 & Hget & Hin0).
  pose proof (validated_hasValidImageList o Hval) as Hvalid.
  destruct Hval as (_ & _ & Hne & Hpos & Hm & _).
  destruct (poissonImageSampler_inv _ _ _ _ _ _ Hvalid Hrun) as (st & Hs & ->).
  destruct (sampler_cases _ _ _ _ _ _ _ _ _ _ _ Hrnd Hget Hs)
    as [-> | (_ & Hsteps & _)].
  - intros i j A B _ HA. simpl in HA. rewrite lookup_empty in HA. discriminate.
  - eapply steps_stored_spaced in Hsteps; try eassumption.
    + apply Hsteps.
    + apply singleton_stored_spaced; assumption.
Qed.

(** Every sample of the returned grid sits at the index computed from its
    own position. *)
Lemma result_stored_at_index random (o : Options) fuel k (grid : SampleList) k' :
  (forall j, 0 <= random j < 1) ->
  validated o ->
  poissonImageSampler random o fuel k = Ok (grid, k') ->
  forall (i : Z) (n : Sample), grid !! i = Some n ->
    i = getIndexInGrid n
          (CELL_SIZE (images o) (default DEFAULT_MIN_DIST (minDist o)))
          (COLS (bounds o) (images o) (default DEFAULT_MIN_DIST (minDist o))).
Proof.
  intros Hrnd Hval Hrun.
  destruct (validated_first_image o Hval) as (image0 & Hget & Hin0).
  pose proof (validated_hasValidImageList o Hval) as Hvalid.
  destruct Hval as (_ & _ & Hne & Hpos & Hm & _).
  destruct (poissonImageSampler_inv _ _ _ _ _ _ Hvalid Hrun) as (st & Hs & ->).
  destruct (sampler_cases _ _ _ _ _ _ _ _ _ _ _ Hrnd Hget Hs)
    as [-> | (_ & Hsteps & _)].
  - intros i n Hn. simpl in Hn. rewrite lookup_empty in Hn. discriminate.
  - eapply steps_stored_spaced in Hsteps; try eassumption.
    + intros i n Hn. apply (proj1 Hsteps i n Hn).
    + apply singleton_stored_spaced; assumption.
Qed.

(** ** Image indices of the samples *)

Lemma steps_index_ok random B (imgs : list Image) c m col row st st' :
  rtc (step random B imgs c m col row) st st' ->
  (forall i n, GRID st !! i = Some n ->
     (0 <= index n < Z.of_nat (length imgs))%Z) ->
  forall i n, GRID st' !! i = Some n ->
    (0 <= index n < Z.of_nat (length imgs))%Z.
Proof.
  apply (steps_invariant (step random B imgs c m col row)
    (fun st => forall i n, GRID st !! i = Some n ->
                 (0 <= index n < Z.of_nat (length imgs))%Z)).
  intros a b Ha Hab.
  destruct Hab as [st0 seed cand k k' Hseed Hcand Hin Hal | st0 i0];
    [| exact Ha].
  intros i n. simpl. rewrite lookup_insert_Some.
  intros [[<- <-] | [_ Hn]]; [| eapply Ha, Hn].
  apply createSampleFromSample_inv in Hcand as (image & Hget & -> & _).
  unfold candidateAt; cbn [index]. eapply array_get_bounds, Hget.
Qed.

(** C10: for a validated image list, every sample of the returned grid
    carries as [index] a position of the image list.  The sampler seeds its
    run with the sample created with index 0 from the first image, whose
    size gives its radius and its inset from the edges of the bounds: for
    every fuel the sampler is the loop started from the grid and the active
    list that hold this sample alone, unless the sample fails the in-bounds
    test; and the returned grid is the one this loop ends with. *)
Theorem sample_index_valid random (o : Options) fuel k (grid : SampleList) k' :
  (forall j, 0 <= random j < 1) ->
  validated o ->
  poissonImageSampler random o fuel k = Ok (grid, k') ->
  (forall (i : Z) (n : Sample), grid !! i = Some n ->
     (0 <= index n < Z.of_nat (length (images o)))%Z /\
     is_Some (array_get (images o) (index n))) /\
  (exists (image0 : Image) (first : Sample),
     array_get (images o) 0 = Some image0 /\
     createFirstSample random (bounds o) image0 (default false (isCircle o)) k
       = Ok (first, S (S k)) /\
     index first = 0%Z /\
     radius first = (if default false (isCircle o) then size image0
                     else getRadiusForSize (size image0)) /\
     x first = bounds_x (bounds o) + size image0
               + random k * (width (bounds o) + bounds_x (bounds o)
                             - size image0
                             - (bounds_x (bounds o) + size image0)) /\
     let c := default false (isCircle o) in
     let m := default DEFAULT_MIN_DIST (minDist o) in
     let t := default DEFAULT_MAX_TRIES (maxTries o) in
     let cs := CELL_SIZE (images o) m in
     let cols := COLS (bounds o) (images o) m in
     let rows := ROWS (bounds o) (images o) m in
     let col := Zfloor (x first / cs) in
     let row := Zfloor (y first / cs) in
     let seeded := {| GRID := {[ getIndexInGrid first cs cols := first ]};
                      ACTIVE := [first] |} in
     (forall fuel' : nat,
        sampler random (bounds o) (images o) c m t fuel' k =
        if negb (isInBounds first col row cols rows (bounds o))
        then Ok ({| GRID := ∅; ACTIVE := [] |}, S (S k))
        else whileLoop random (bounds o) (images o) c m t col row fuel'
               seeded (S (S k))) /\
     ((isInBounds first col row cols rows (bounds o) = false /\
       grid = ∅ /\ k' = S (S k)) \/
      (isInBounds first col row cols rows (bounds o) = true /\
       exists st : State,
         whileLoop random (bounds o) (images o) c m t col row fuel
           seeded (S (S k)) = Ok (st, k') /\
         grid = GRID st))).
Proof.
  intros Hrnd Hval Hrun.
  destruct (validated_first_image o Hval) as (image0 & Hget & Hin0).
  pose proof (validated_hasValidImageList o Hval) as Hvalid.
  destruct (poissonImageSampler_inv _ _ _ _ _ _ Hvalid Hrun) as (st & Hs & ->).
  split.
  - assert (Hidx : forall i n, GRID st !! i = Some n ->
              (0 <= index n < Z.of_nat (length (images o)))%Z).
    { destruct (sampler_cases _ _ _ _ _ _ _ _ _ _ _ Hrnd Hget Hs)
        as [-> | (_ & Hsteps & _)].
      - intros i n Hn. simpl in Hn. rewrite lookup_empty in Hn. discriminate.
      - eapply steps_index_ok; [exact Hsteps |].
        intros i n Hn. cbn [GRID] in Hn.
        apply lookup_singleton_Some in Hn as [<- <-]. cbn [index firstSampleAt].
        apply array_get_bounds in Hget. lia. }
    intros i n Hn. specialize (Hidx i n Hn). split; [exact Hidx |].
    unfold array_get. destruct (Z.ltb_spec (index n) 0); [lia |].
    apply lookup_lt_is_Some_2. lia.
  - exists image0, (firstSampleAt random (bounds o) image0
                      (default false (isCircle o)) k).
    split; [exact Hget |]. split; [apply createFirstSample_eq |].
    split; [reflexivity |]. split; [reflexivity |]. split; [reflexivity |].
    cbv zeta. split.
    + intros fuel'. apply (sampler_eq _ _ _ _ _ _ _ _ _ Hget).
    + rewrite (sampler_eq _ _ _ _ _ _ _ _ _ Hget) in Hs. cbv zeta in Hs.
      destruct (isInBounds _ _ _ _ _ (bounds o)) eqn:Hin; cbn [negb] in Hs.
      * right. split; [reflexivity |]. exists st. split; [exact Hs | reflexivity].
      * left. injection Hs as <- <-. repeat split.
Qed.

(** ** Evaluation on the concrete inputs *)

Lemma Zfloor_0_mul (v : R) : Zfloor (0 * v) = 0%Z.
Proof. apply Zfloor_eq. simpl. lra. Qed.

Lemma unit_CELL_SIZE : CELL_SIZE unit_images 8 = 10 / sqrt 2.
Proof. unfold CELL_SIZE, minRadius, unit_images. simpl. f_equal. lra. Qed.

Lemma unit_cell (v : R) (n : Z) :
  IZR n * 10 <= v * sqrt 2 < (IZR n + 1) * 10 ->
  Zfloor (v / CELL_SIZE unit_images 8) = n.
Proof.
  intros Hv. rewrite unit_CELL_SIZE. apply Zfloor_eq.
  pose proof sqrt2_pos.
  replace (v / (10 / sqrt 2)) with (v * sqrt 2 / 10) by (field; lra).
  lra.
Qed.

Lemma unit_RANGE : RANGE unit_images 8 = 2%Z.
Proof.
  unfold RANGE. rewrite unit_CELL_SIZE. unfold maxRadius, unit_images. simpl.
  apply Zceil_eq. pose proof sqrt2_bounds. pose proof sqrt2_pos.
  replace ((8 + 1 * 2) / (10 / sqrt 2)) with (sqrt 2) by (field; lra).
  simpl. lra.
Qed.

Lemma square13_COLS : COLS square13 unit_images 8 = 1%Z.
Proof.
  unfold COLS. apply unit_cell. pose proof sqrt2_bounds. simpl. lra.
Qed.

Lemma square13_ROWS : ROWS square13 unit_images 8 = 1%Z.
Proof.
  unfold ROWS. apply unit_cell. pose proof sqrt2_bounds. simpl. lra.
Qed.

(** An iteration of the [while] loop with a single try. *)
Lemma whileBody_single random B imgs c m col row st k seed image :
  array_get (ACTIVE st) (Zfloor (random k * INR (length (ACTIVE st)))) = Some seed ->
  array_get imgs (Zfloor (random (S k) * INR (length imgs))) = Some image ->
  let i := Zfloor (random k * INR (length (ACTIVE st))) in
  let cand := candidateAt random seed image
                (Zfloor (random (S k) * INR (length imgs))) m c (S k) in
  whileBody random B imgs c m 1 col row st k =
  Ok (if isInBounds cand col row (COLS B imgs m) (ROWS B imgs m) B
         && isAllowedToDraw cand (CELL_SIZE imgs m) (COLS B imgs m) m
              (GRID st) (RANGE imgs m)
      then place B imgs m cand st
      else {| GRID := GRID st; ACTIVE := splice1 (ACTIVE st) i |},
      S (S (S (S (S k))))).
Proof.
  intros Hseed Himg i cand.
  unfold whileBody, mbind, M_bind, Math_random. rewrite Hseed.
  cbn [defined mret M_ret]. change (Z.to_nat 1) with 1%nat.
  cbn [tryLoop]. unfold mbind, M_bind.
  rewrite (createSampleFromSample_eq _ _ _ _ _ _ _ Himg). fold cand.
  destruct (isInBounds cand col row _ _ B); cbn [negb andb];
    [destruct (isAllowedToDraw cand _ _ m (GRID st) _); cbn [negb] |];
    reflexivity.
Qed.

(** The candidates drawn at the angles 0, pi / 2 and pi. *)
Lemma candidate_east random seed k :
  random (S k) = 0 ->
  candidateAt random seed {| size := 1 |} 0 8 true k =
  {| x := x seed + (9 + radius seed + random (S (S k)) * 8);
     y := y seed; radius := 1; index := 0 |}.
Proof.
  intros Ha. unfold candidateAt. rewrite Ha. cbn [size].
  replace (0 * PI * 2) with 0 by lra. rewrite cos_0, sin_0.
  f_equal; lra.
Qed.

Lemma candidate_north random seed k :
  random (S k) = 1 / 4 ->
  candidateAt random seed {| size := 1 |} 0 8 true k =
  {| x := x seed;
     y := y seed + (9 + radius seed + random (S (S (S k))) * 8);
     radius := 1; index := 0 |}.
Proof.
  intros Ha. unfold candidateAt. rewrite Ha. cbn [size].
  replace (1 / 4 * PI * 2) with (PI / 2) by lra. rewrite cos_PI2, sin_PI2.
  f_equal; lra.
Qed.

Lemma candidate_west random seed k :
  random (S k) = 1 / 2 ->
  candidateAt random seed {| size := 1 |} 0 8 true k =
  {| x := x seed - (9 + radius seed + random (S (S k)) * 8);
     y := y seed; radius := 1; index := 0 |}.
Proof.
  intros Ha. unfold candidateAt. rewrite Ha. cbn [size].
  replace (1 / 2 * PI * 2) with PI by lra. rewrite cos_PI, sin_PI.
  f_equal; lra.
Qed.

Lemma hypot_ge (a b d : R) : d * d <= a * a + b * b -> d <= Math_hypot a b.
Proof.
  intros Hd. unfold Math_hypot.
  destruct (Rle_or_lt d 0) as [Hneg | Hpos].
  - pose proof (sqrt_pos (a * a + b * b)). lra.
  - rewrite <- (sqrt_square d) by lra. apply sqrt_le_1_alt, Hd.
Qed.

Lemma whileLoop_S random B imgs c m t col row fuel st k :
  ACTIVE st <> [] ->
  whileLoop random B imgs c m t col row (S fuel) st k =
  match whileBody random B imgs c m t col row st k with
  | Ok (st', k') => whileLoop random B imgs c m t col row fuel st' k'
  | TypeError => TypeError
  | OutOfFuel => OutOfFuel
  end.
Proof.
  intros Hne. cbn [whileLoop]. destruct (ACTIVE st); [congruence |].
  reflexivity.
Qed.

Lemma whileLoop_done random B imgs c m t col row fuel st k :
  ACTIVE st = [] ->
  whileLoop random B imgs c m t col row fuel st k = Ok (st, k).
Proof. intros Hnil. destruct fuel; cbn [whileLoop]; rewrite Hnil; reflexivity. Qed.

Section UnitRuns.

Variables (random : nat -> R) (B : Bounds) (col row : Z).

Local Abbreviation body := (whileBody random B unit_images true 8 1 col row).

Lemma unit_image_drawn (k : nat) :
  random k = 0 ->
  array_get unit_images (Zfloor (random k * INR (length unit_images)))
  = Some {| size := 1 |}.
Proof. intros ->. rewrite Zfloor_0_mul. reflexivity. Qed.

Lemma first_seed_drawn (st : State) (k : nat) seed l :
  random k = 0 -> ACTIVE st = seed :: l ->
  array_get (ACTIVE st) (Zfloor (random k * INR (length (ACTIVE st))))
  = Some seed.
Proof. intros -> ->. rewrite Zfloor_0_mul. reflexivity. Qed.

(** The first seed of the active list places its candidate. *)
Lemma iteration_places (st : State) (k : nat) seed l cand :
  random k = 0 -> ACTIVE st = seed :: l -> random (S k) = 0 ->
  candidateAt random seed {| size := 1 |} 0 8 true (S k) = cand ->
  isInBounds cand col row (COLS B unit_images 8) (ROWS B unit_images 8) B = true ->
  (forall i n, GRID st !! i = Some n ->
     8 + radius cand + radius n <= Math_hypot (x n - x cand) (y n - y cand)) ->
  body st k = Ok (place B unit_images 8 cand st, S (S (S (S (S k))))).
Proof.
  intros Hk Hact Himg Hcand Hin Hfar.
  rewrite (whileBody_single _ _ _ _ _ _ _ _ _ _ _
             (first_seed_drawn st k seed l Hk Hact) (unit_image_drawn _ Himg)).
  cbv zeta. rewrite Himg, Zfloor_0_mul, Hcand, Hin.
  rewrite isAllowedToDraw_far by exact Hfar. reflexivity.
Qed.

(** The candidate of the first seed is out of bounds: the seed is removed. *)
Lemma iteration_removes (st : State) (k : nat) seed l cand :
  random k = 0 -> ACTIVE st = seed :: l -> random (S k) = 0 ->
  candidateAt random seed {| size := 1 |} 0 8 true (S k) = cand ->
  isInBounds cand col row (COLS B unit_images 8) (ROWS B unit_images 8) B = false ->
  body st k = Ok ({| GRID := GRID st; ACTIVE := l |}, S (S (S (S (S k))))).
Proof.
  intros Hk Hact Himg Hcand Hin.
  rewrite (whileBody_single _ _ _ _ _ _ _ _ _ _ _
             (first_seed_drawn st k seed l Hk Hact) (unit_image_drawn _ Himg)).
  cbv zeta. rewrite Himg, Hk, !Zfloor_0_mul, Hcand, Hin, Hact. reflexivity.
Qed.

End UnitRuns.

Lemma isInBounds_beyond_right s col row cols rows b :
  width b < x s + radius s -> isInBounds s col row cols rows b = false.
Proof.
  intros Hx. destruct (isInBounds s col row cols rows b) eqn:Hin; [| reflexivity].
  apply isInBounds_true in Hin. lra.
Qed.

Lemma isInBounds_beyond_left s col row cols rows b :
  x s - radius s < 0 -> isInBounds s col row cols rows b = false.
Proof.
  intros Hx. destruct (isInBounds s col row cols rows b) eqn:Hin; [| reflexivity].
  apply isInBounds_true in Hin. lra.
Qed.

Lemma unit_cell_1 : Zfloor (1 / CELL_SIZE unit_images 8) = 0%Z.
Proof. apply unit_cell. pose proof sqrt2_bounds. simpl. lra. Qed.

Lemma unit_cell_11 : Zfloor (11 / CELL_SIZE unit_images 8) = 1%Z.
Proof. apply unit_cell. pose proof sqrt2_bounds. simpl. lra. Qed.

Lemma overwriting_first :
  firstSampleAt overwriting_draws square13 {| size := 1 |} true 0 = sampleP.
Proof.
  unfold firstSampleAt, sampleP, overwriting_draws, draws. simpl.
  f_equal; lra.
Qed.

Lemma sampleP_in_square13 :
  isInBounds sampleP 0 0 (COLS square13 unit_images 8)
    (ROWS square13 unit_images 8) square13 = true.
Proof.
  rewrite square13_COLS, square13_ROWS. apply isInBounds_true. simpl.
  repeat split; (lia || lra).
Qed.

Lemma sampleA_in_square13 :
  isInBounds sampleA 0 0 (COLS square13 unit_images 8)
    (ROWS square13 unit_images 8) square13 = true.
Proof.
  rewrite square13_COLS, square13_ROWS. apply isInBounds_true. simpl.
  repeat split; (lia || lra).
Qed.

Lemma sampleB_in_square13 :
  isInBounds sampleB 0 0 (COLS square13 unit_images 8)
    (ROWS square13 unit_images 8) square13 = true.
Proof.
  rewrite square13_COLS, square13_ROWS. apply isInBounds_true. simpl.
  repeat split; (lia || lra).
Qed.

Lemma index_P b : getIndexInGrid sampleP (CELL_SIZE unit_images 8) (COLS b unit_images 8) = 0%Z.
Proof. unfold getIndexInGrid. cbn [x y sampleP]. rewrite unit_cell_1. lia. Qed.

Lemma index_A b : getIndexInGrid sampleA (CELL_SIZE unit_images 8) (COLS b unit_images 8) = 1%Z.
Proof. unfold getIndexInGrid. cbn [x y sampleA]. rewrite unit_cell_1, unit_cell_11. lia. Qed.

Lemma index_B_square13 :
  getIndexInGrid sampleB (CELL_SIZE unit_images 8) (COLS square13 unit_images 8) = 1%Z.
Proof.
  unfold getIndexInGrid. cbn [x y sampleB].
  rewrite unit_cell_1, unit_cell_11, square13_COLS. lia.
Qed.

Lemma far_P_A : 8 + radius sampleA + radius sampleP
  <= Math_hypot (x sampleP - x sampleA) (y sampleP - y sampleA).
Proof. apply hypot_ge. simpl. lra. Qed.

Lemma far_P_B : 8 + radius sampleB + radius sampleP
  <= Math_hypot (x sampleP - x sampleB) (y sampleP - y sampleB).
Proof. apply hypot_ge. simpl. lra. Qed.

Lemma far_A_B : 8 + radius sampleB + radius sampleA
  <= Math_hypot (x sampleA - x sampleB) (y sampleA - y sampleB).
Proof. apply hypot_ge. simpl. lra. Qed.

Lemma far_B_A : 8 + radius sampleA + radius sampleB
  <= Math_hypot (x sampleB - x sampleA) (y sampleB - y sampleA).
Proof. apply hypot_ge. simpl. lra. Qed.

Lemma far_A_P : 8 + radius sampleP + radius sampleA
  <= Math_hypot (x sampleA - x sampleP) (y sampleA - y sampleP).
Proof. apply hypot_ge. simpl. lra. Qed.

Lemma far_B_P : 8 + radius sampleP + radius sampleB
  <= Math_hypot (x sampleB - x sampleP) (y sampleB - y sampleP).
Proof. apply hypot_ge. simpl. lra. Qed.

Create HintDb far discriminated.
#[local] Hint Resolve far_P_A far_P_B far_A_B far_B_A far_A_P far_B_P : far.

(** Closes [forall i n, grid !! i = Some n -> ...] on an explicit grid. *)
Ltac far_from_grid :=
  let i := fresh "i" in let n := fresh "n" in let H := fresh "H" in
  intros i n; cbn [GRID place]; rewrite ?index_P, ?index_A;
  rewrite ?lookup_insert_Some, ?lookup_singleton_Some;
  intros H; decompose [and or] H; subst; auto with far.

(** Closes [candidateAt draws seed image 0 8 true k = sample]. *)
Ltac candidate_is lem rnd :=
  rewrite lem by reflexivity; unfold rnd, draws;
  cbn [nth x y radius sampleP sampleA sampleB]; f_equal; lra.

Lemma overwriting_run (fuel : nat) :
  sampler overwriting_draws square13 unit_images true 8 1 (5 + fuel) 0%nat =
  Ok ({| GRID := <[1%Z := sampleB]> (<[1%Z := sampleA]> {[ 0%Z := sampleP ]});
         ACTIVE := [] |}, 27%nat).
Proof.
  rewrite (sampler_eq _ square13 unit_images true 8 1%Z _ _ {| size := 1 |} eq_refl).
  cbv zeta.
  rewrite overwriting_first. cbn [x y sampleP]. rewrite unit_cell_1.
  rewrite sampleP_in_square13. cbn [negb]. rewrite index_P.
  change (5 + fuel)%nat with (S (S (S (S (S fuel))))).
  (* sampleP places sampleA *)
  rewrite whileLoop_S by discriminate.
  erewrite (iteration_places _ _ _ _ _ _ sampleP [] sampleA);
    [ | reflexivity | reflexivity | reflexivity
      | candidate_is candidate_east overwriting_draws
      | apply sampleA_in_square13 | far_from_grid ].
  unfold place at 1. rewrite index_A. cbn [GRID ACTIVE app].
  (* sampleP places sampleB, at the index of sampleA *)
  rewrite whileLoop_S by discriminate.
  erewrite (iteration_places _ _ _ _ _ _ sampleP [sampleA] sampleB);
    [ | reflexivity | reflexivity | reflexivity
      | candidate_is candidate_north overwriting_draws
      | apply sampleB_in_square13 | far_from_grid ].
  unfold place at 1. rewrite index_B_square13. cbn [GRID ACTIVE app].
  (* the three seeds are removed in turn *)
  rewrite whileLoop_S by discriminate.
  erewrite (iteration_removes _ _ _ _ _ _ sampleP [sampleA; sampleB]);
    [ | reflexivity | reflexivity | reflexivity
      | rewrite candidate_east by reflexivity; reflexivity
      | apply isInBounds_beyond_right; unfold overwriting_draws, draws; simpl; lra ].
  rewrite whileLoop_S by discriminate.
  erewrite (iteration_removes _ _ _ _ _ _ sampleA [sampleB]);
    [ | reflexivity | reflexivity | reflexivity
      | rewrite candidate_east by reflexivity; reflexivity
      | apply isInBounds_beyond_right; unfold overwriting_draws, draws; simpl; lra ].
  rewrite whileLoop_S by discriminate.
  erewrite (iteration_removes _ _ _ _ _ _ sampleB []);
    [ | reflexivity | reflexivity | reflexivity
      | rewrite candidate_east by reflexivity; reflexivity
      | apply isInBounds_beyond_right; unfold overwriting_draws, draws; simpl; lra ].
  rewrite whileLoop_done by reflexivity. reflexivity.
Qed.

(** ** A run that never ends *)

Lemma alternating_value (k c j : nat) :
  k = (c + 10 * j)%nat -> (c < 10)%nat ->
  alternating_draws k = if (c =? 9)%nat then 1 / 4 else 0.
Proof.
  intros -> Hc. unfold alternating_draws.
  replace ((c + 10 * j) mod 10)%nat with c; [reflexivity |].
  rewrite (Nat.mul_comm 10 j), Nat.Div0.mod_add, Nat.mod_small by exact Hc.
  reflexivity.
Qed.

Lemma alternating_range (k : nat) : 0 <= alternating_draws k < 1.
Proof. unfold alternating_draws. destruct (_ =? _)%nat; lra. Qed.

Lemma alternating_first :
  firstSampleAt alternating_draws square13 {| size := 1 |} true 0 = sampleP.
Proof.
  unfold firstSampleAt, sampleP, alternating_draws. simpl. f_equal; lra.
Qed.

Lemma gridPB_to_gridPA : <[ 1%Z := sampleA ]> gridPB = gridPA.
Proof. unfold gridPB, gridPA. apply insert_insert_eq. Qed.

Lemma gridPA_to_gridPB : <[ 1%Z := sampleB ]> gridPA = gridPB.
Proof. unfold gridPB, gridPA. apply insert_insert_eq. Qed.

(** From a state whose first active sample is [sampleP], the loop places
    [sampleA] and [sampleB] alternately at index 1 and uses up any fuel. *)
Lemma alternating_loop (fuel : nat) :
  forall (j : nat) (st : State) (l : list Sample),
    ACTIVE st = sampleP :: l ->
    (GRID st = gridP \/ GRID st = gridPB ->
     whileLoop alternating_draws square13 unit_images true 8 1 0 0 fuel st
       (2 + 10 * j)%nat = OutOfFuel) /\
    (GRID st = gridPA ->
     whileLoop alternating_draws square13 unit_images true 8 1 0 0 fuel st
       (7 + 10 * j)%nat = OutOfFuel).
Proof.
  induction fuel as [|fuel IH]; intros j st l Hact.
  - cbn [whileLoop]. rewrite Hact. split; reflexivity.
  - split; intros Hgrid.
    + rewrite whileLoop_S by (rewrite Hact; discriminate).
      erewrite (iteration_places _ _ _ _ _ _ sampleP l sampleA);
        [ | apply (alternating_value _ 2 j); lia
          | exact Hact
          | apply (alternating_value _ 3 j); lia
          | rewrite candidate_east by (apply (alternating_value _ 4 j); lia);
            rewrite (alternating_value _ 5 j) by lia;
            unfold sampleA; cbn [x y radius sampleP Nat.eqb]; f_equal; lra
          | apply sampleA_in_square13
          | ].
      * destruct (IH j (place square13 unit_images 8 sampleA st) (l ++ [sampleA]))
          as [_ Hnext].
        { cbn [ACTIVE place]. rewrite Hact. reflexivity. }
        apply Hnext. cbn [GRID place]. rewrite index_A.
        destruct Hgrid as [-> | ->]; [reflexivity | apply gridPB_to_gridPA].
      * intros i n. destruct Hgrid as [-> | ->]; unfold gridPB, gridP;
          rewrite ?lookup_insert_Some, ?lookup_singleton_Some;
          intros H; decompose [and or] H; subst; auto with far.
    + rewrite whileLoop_S by (rewrite Hact; discriminate).
      erewrite (iteration_places _ _ _ _ _ _ sampleP l sampleB);
        [ | apply (alternating_value _ 7 j); lia
          | exact Hact
          | apply (alternating_value _ 8 j); lia
          | rewrite candidate_north by (apply (alternating_value _ 9 j); lia);
            rewrite (alternating_value _ 1 (S j)) by lia;
            unfold sampleB; cbn [x y radius sampleP Nat.eqb]; f_equal; lra
          | apply sampleB_in_square13
          | ].
      * destruct (IH (S j) (place square13 unit_images 8 sampleB st) (l ++ [sampleB]))
          as [Hnext _].
        { cbn [ACTIVE place]. rewrite Hact. reflexivity. }
        replace (S (S (S (S (S (7 + 10 * j))))))%nat with (2 + 10 * S j)%nat by lia.
        apply Hnext. right. cbn [GRID place]. rewrite index_B_square13, Hgrid.
        apply gridPA_to_gridPB.
      * intros i n. rewrite Hgrid. unfold gridPA, gridP.
        rewrite ?lookup_insert_Some, ?lookup_singleton_Some.
        intros H; decompose [and or] H; subst; auto with far.
Qed.

Lemma circle13_validated : validated circle13.
Proof.
  unfold validated, circle13. simpl.
  repeat split; try lra; try lia; try discriminate.
  intros image ->%list_elem_of_singleton. simpl. lra.
Qed.

(** C5: the loop does not end for every sequence of draws.  On the square of
    side 13 with circles of size 1 and a minimum distance of 8, the grid
    has one cell; the first sample [sampleP] lies in it, and the candidates
    [sampleA] and [sampleB] lie outside the grid, both at index 1, far from
    [sampleP] and from each other.  Each is accepted while the other holds
    index 1, and overwrites it: with [alternating_draws] the active list
    grows for ever, and the sampler uses up any fuel. *)
Theorem growth_loop_may_never_end :
  validated circle13 /\
  0 < default DEFAULT_MIN_DIST (minDist circle13) /\
  (forall j, 0 <= alternating_draws j < 1) /\
  forall fuel : nat,
    poissonImageSampler alternating_draws circle13 fuel 0%nat = OutOfFuel.
Proof.
  split; [apply circle13_validated |].
  split; [simpl; lra |].
  split; [apply alternating_range |].
  intros fuel. unfold poissonImageSampler.
  rewrite (validated_hasValidImageList _ circle13_validated). cbn [negb].
  unfold mbind, M_bind. cbn [bounds images isCircle minDist maxTries circle13 default].
  rewrite (sampler_eq _ square13 unit_images true 8 1%Z _ _ {| size := 1 |} eq_refl).
  cbv zeta.
  rewrite alternating_first. cbn [x y sampleP]. rewrite unit_cell_1.
  rewrite sampleP_in_square13. cbn [negb]. rewrite index_P.
  destruct (alternating_loop fuel 0 {| GRID := gridP; ACTIVE := [sampleP] |} [])
    as [Hloop _]; [reflexivity |].
  unfold gridP in Hloop. change (2 + 10 * 0)%nat with 2%nat in Hloop.
  rewrite Hloop; [reflexivity | left; reflexivity].
Qed.

(** ** Samples outside the grid *)

Lemma overwriting_places_A :
  whileBody overwriting_draws square13 unit_images true 8 1 0 0
    {| GRID := gridP; ACTIVE := [sampleP] |} 2%nat
  = Ok ({| GRID := gridPA; ACTIVE := [sampleP; sampleA] |}, 7%nat).
Proof.
  erewrite (iteration_places _ _ _ _ _ _ sampleP [] sampleA);
    [ | reflexivity | reflexivity | reflexivity
      | candidate_is candidate_east overwriting_draws
      | apply sampleA_in_square13 | unfold gridP; far_from_grid ].
  unfold place. rewrite index_A. reflexivity.
Qed.

Lemma overwriting_places_B :
  whileBody overwriting_draws square13 unit_images true 8 1 0 0
    {| GRID := gridPA; ACTIVE := [sampleP; sampleA] |} 7%nat
  = Ok ({| GRID := gridPB; ACTIVE := [sampleP; sampleA; sampleB] |}, 12%nat).
Proof.
  erewrite (iteration_places _ _ _ _ _ _ sampleP [sampleA] sampleB);
    [ | reflexivity | reflexivity | reflexivity
      | candidate_is candidate_north overwriting_draws
      | apply sampleB_in_square13 | unfold gridPA, gridP; far_from_grid ].
  unfold place. rewrite index_B_square13. cbn [GRID ACTIVE app].
  rewrite gridPA_to_gridPB. reflexivity.
Qed.

Lemma overwriting_result (fuel : nat) :
  poissonImageSampler overwriting_draws circle13 (5 + fuel) 0%nat
  = Ok (gridPB, 27%nat).
Proof.
  unfold poissonImageSampler.
  rewrite (validated_hasValidImageList _ circle13_validated). cbn [negb].
  unfold mbind, M_bind.
  cbn [bounds images isCircle minDist maxTries circle13 default].
  rewrite overwriting_run. cbn [GRID mret M_ret].
  fold gridP. fold gridPA. rewrite gridPA_to_gridPB. reflexivity.
Qed.

Lemma draws_range (l : list R) :
  Forall (fun u => 0 <= u < 1) l -> forall j, 0 <= draws l j < 1.
Proof.
  intros Hl j. unfold draws. revert j.
  induction Hl as [|u l Hu Hl IH]; intros [|j]; simpl; try lra.
  apply IH.
Qed.

Lemma overwriting_range (j : nat) : 0 <= overwriting_draws j < 1.
Proof.
  apply draws_range. repeat (apply Forall_cons_2; [lra |]). apply Forall_nil_2.
Qed.

Lemma sampleA_not_sampleB : sampleA <> sampleB.
Proof. intros H. apply (f_equal x) in H. simpl in H. lra. Qed.

Lemma overwriting_creates_A :
  createSampleFromSample overwriting_draws sampleP unit_images 8 true 3%nat
    = Ok (sampleA, 7%nat).
Proof.
  rewrite (createSampleFromSample_eq _ _ _ _ _ _ {| size := 1 |})
    by (apply unit_image_drawn; reflexivity).
  f_equal. f_equal.
  replace (Zfloor (overwriting_draws 3 * INR (length unit_images))) with 0%Z
    by (symmetry; apply Zfloor_0_mul).
  candidate_is candidate_east overwriting_draws.
Qed.

(** C6: the in-bounds test of a candidate does not use the column and the
    row of the candidate.  In the first iteration of the run below the
    candidate [sampleA] is generated; its own column equals the number of
    columns, so that the test on its own cell would reject it; the loop
    tests it with the column and the row of the first sample, and places
    it. *)
Theorem candidate_tested_with_first_cell :
  createSampleFromSample overwriting_draws sampleP unit_images 8 true 3%nat
    = Ok (sampleA, 7%nat) /\
  Zfloor (x sampleA / CELL_SIZE unit_images 8) = COLS square13 unit_images 8 /\
  isInBounds sampleA
    (Zfloor (x sampleA / CELL_SIZE unit_images 8))
    (Zfloor (y sampleA / CELL_SIZE unit_images 8))
    (COLS square13 unit_images 8) (ROWS square13 unit_images 8) square13
    = false /\
  Zfloor (x sampleP / CELL_SIZE unit_images 8) = 0%Z /\
  Zfloor (y sampleP / CELL_SIZE unit_images 8) = 0%Z /\
  whileBody overwriting_draws square13 unit_images true 8 1 0 0
    {| GRID := gridP; ACTIVE := [sampleP] |} 2%nat
  = Ok ({| GRID := gridPA; ACTIVE := [sampleP; sampleA] |}, 7%nat).
Proof.
  split; [apply overwriting_creates_A |].
  cbn [x y sampleA sampleP]. rewrite unit_cell_11, unit_cell_1, square13_COLS.
  split; [reflexivity |].
  split.
  { unfold isInBounds. replace (1 <? 1)%Z with false by reflexivity.
    reflexivity. }
  split; [reflexivity |]. split; [reflexivity |].
  apply overwriting_places_A.
Qed.

(** C3: accepted samples can share an index, and an index can lie outside
    [0, numCols * numRows).  In the run below the grid has one cell;
    [sampleA] and then [sampleB] are accepted and both get index 1, so that
    [sampleB] overwrites [sampleA], which the returned grid no longer
    holds. *)
Theorem accepted_samples_share_an_index :
  validated circle13 /\
  (forall j, 0 <= overwriting_draws j < 1) /\
  (COLS square13 unit_images 8 * ROWS square13 unit_images 8 = 1)%Z /\
  whileBody overwriting_draws square13 unit_images true 8 1 0 0
    {| GRID := gridP; ACTIVE := [sampleP] |} 2%nat
  = Ok ({| GRID := gridPA; ACTIVE := [sampleP; sampleA] |}, 7%nat) /\
  whileBody overwriting_draws square13 unit_images true 8 1 0 0
    {| GRID := gridPA; ACTIVE := [sampleP; sampleA] |} 7%nat
  = Ok ({| GRID := gridPB; ACTIVE := [sampleP; sampleA; sampleB] |}, 12%nat) /\
  getIndexInGrid sampleA (CELL_SIZE unit_images 8) (COLS square13 unit_images 8)
    = 1%Z /\
  getIndexInGrid sampleB (CELL_SIZE unit_images 8) (COLS square13 unit_images 8)
    = 1%Z /\
  sampleA <> sampleB /\
  poissonImageSampler overwriting_draws circle13 5 0%nat = Ok (gridPB, 27%nat) /\
  gridPB !! 1%Z = Some sampleB /\
  forall i : Z, gridPB !! i <> Some sampleA.
Proof.
  split; [apply circle13_validated |].
  split; [apply overwriting_range |].
  split; [rewrite square13_COLS, square13_ROWS; reflexivity |].
  split; [apply overwriting_places_A |].
  split; [apply overwriting_places_B |].
  split; [apply index_A |].
  split; [apply index_B_square13 |].
  split; [apply sampleA_not_sampleB |].
  split; [apply (overwriting_result 0) |].
  split; [apply lookup_insert_eq |].
  intros i. unfold gridPB, gridP.
  rewrite lookup_insert_Some, lookup_singleton_Some.
  intros [[_ H] | [_ [_ H]]].
  - apply sampleA_not_sampleB. congruence.
  - apply (f_equal x) in H. simpl in H. lra.
Qed.

(** ** Bounds that do not start at the origin *)

Lemma isInBounds_footprint s col row cols rows b :
  isInBounds s col row cols rows b = true ->
  0 <= x s - radius s /\ x s + radius s <= width b /\
  0 <= y s - radius s /\ y s + radius s <= height b.
Proof. intros Hin%isInBounds_true. tauto. Qed.

(** What the in-bounds test does ensure: every sample of the result fits in
    the rectangle of the same size placed at the origin. *)
Lemma footprint_in_origin_rectangle random (o : Options) fuel k
  (grid : SampleList) k' :
  (forall j, 0 <= random j < 1) ->
  validated o ->
  poissonImageSampler random o fuel k = Ok (grid, k') ->
  forall (i : Z) (S : Sample), grid !! i = Some S ->
    0 <= x S - radius S /\ x S + radius S <= width (bounds o) /\
    0 <= y S - radius S /\ y S + radius S <= height (bounds o).
Proof.
  intros Hrnd Hval Hrun.
  destruct (validated_first_image o Hval) as (image0 & Hget & Hin0).
  pose proof (validated_hasValidImageList o Hval) as Hvalid.
  destruct (poissonImageSampler_inv _ _ _ _ _ _ Hvalid Hrun) as (st & Hs & ->).
  destruct (sampler_cases _ _ _ _ _ _ _ _ _ _ _ Hrnd Hget Hs)
    as [-> | (Hfirst & Hsteps & _)].
  - intros i S HS. simpl in HS. rewrite lookup_empty in HS. discriminate.
  - pose (P := fun st : State => forall i S, GRID st !! i = Some S ->
             0 <= x S - radius S /\ x S + radius S <= width (bounds o) /\
             0 <= y S - radius S /\ y S + radius S <= height (bounds o)).
    change (P st). eapply (steps_invariant _ P); [| exact Hsteps |].
    + intros a b Ha Hab.
      destruct Hab as [st0 seed cand k0 k1 Hseed Hcand Hin Hal | st0 i0];
        [| exact Ha].
      intros i S. simpl. rewrite lookup_insert_Some.
      intros [[<- <-] | [_ HS]]; [| eapply Ha, HS].
      eapply isInBounds_footprint, Hin.
    + intros i S HS. cbn [GRID] in HS.
      apply lookup_singleton_Some in HS as [<- <-].
      eapply isInBounds_footprint, Hfirst.
Qed.

Lemma shifted15_COLS : COLS shifted15 unit_images 8 = 2%Z.
Proof.
  unfold COLS. apply unit_cell. pose proof sqrt2_bounds. simpl. lra.
Qed.

Lemma shifted15_ROWS : ROWS shifted15 unit_images 8 = 1%Z.
Proof.
  unfold ROWS. apply unit_cell. pose proof sqrt2_bounds. simpl. lra.
Qed.

Lemma westward_first :
  firstSampleAt westward_draws shifted15 {| size := 1 |} true 0 = sampleA.
Proof.
  unfold firstSampleAt, sampleA, westward_draws, draws. simpl.
  f_equal; lra.
Qed.

Lemma sampleA_in_shifted15 :
  isInBounds sampleA 1 0 (COLS shifted15 unit_images 8)
    (ROWS shifted15 unit_images 8) shifted15 = true.
Proof.
  rewrite shifted15_COLS, shifted15_ROWS. apply isInBounds_true. simpl.
  repeat split; (lia || lra).
Qed.

Lemma sampleP_in_shifted15 :
  isInBounds sampleP 1 0 (COLS shifted15 unit_images 8)
    (ROWS shifted15 unit_images 8) shifted15 = true.
Proof.
  rewrite shifted15_COLS, shifted15_ROWS. apply isInBounds_true. simpl.
  repeat split; (lia || lra).
Qed.

Lemma westward_run (fuel : nat) :
  sampler westward_draws shifted15 unit_images true 8 1 (3 + fuel) 0%nat =
  Ok ({| GRID := <[0%Z := sampleP]> {[ 1%Z := sampleA ]}; ACTIVE := [] |},
      17%nat).
Proof.
  rewrite (sampler_eq _ shifted15 unit_images true 8 1%Z _ _ {| size := 1 |} eq_refl).
  cbv zeta.
  rewrite westward_first. cbn [x y sampleA]. rewrite unit_cell_1, unit_cell_11.
  rewrite sampleA_in_shifted15. cbn [negb]. rewrite index_A.
  change (3 + fuel)%nat with (S (S (S fuel))).
  (* sampleA places sampleP, west of it *)
  rewrite whileLoop_S by discriminate.
  erewrite (iteration_places _ _ _ _ _ _ sampleA [] sampleP);
    [ | reflexivity | reflexivity | reflexivity
      | candidate_is candidate_west westward_draws
      | apply sampleP_in_shifted15 | far_from_grid ].
  unfold place at 1. rewrite index_P. cbn [GRID ACTIVE app].
  (* both seeds are removed *)
  rewrite whileLoop_S by discriminate.
  erewrite (iteration_removes _ _ _ _ _ _ sampleA [sampleP]);
    [ | reflexivity | reflexivity | reflexivity
      | rewrite candidate_west by reflexivity; reflexivity
      | apply isInBounds_beyond_left; unfold westward_draws, draws; simpl; lra ].
  rewrite whileLoop_S by discriminate.
  erewrite (iteration_removes _ _ _ _ _ _ sampleP []);
    [ | reflexivity | reflexivity | reflexivity
      | rewrite candidate_west by reflexivity; reflexivity
      | apply isInBounds_beyond_left; unfold westward_draws, draws; simpl; lra ].
  rewrite whileLoop_done by reflexivity. reflexivity.
Qed.

Lemma circle15_validated : validated circle15.
Proof.
  unfold validated, circle15. simpl.
  repeat split; try lra; try lia; try discriminate.
  intros image ->%list_elem_of_singleton. simpl. lra.
Qed.

Lemma westward_range (j : nat) : 0 <= westward_draws j < 1.
Proof.
  apply draws_range. repeat (apply Forall_cons_2; [lra |]). apply Forall_nil_2.
Qed.

Lemma fixed_radius_isInBounds_footprint s col row cols rows b :
  FixedRadius.isInBounds s col row cols rows b = true ->
  bounds_x b <= x s - radius s /\ x s + radius s <= bounds_x b + width b /\
  bounds_y b <= y s - radius s /\ y s + radius s <= bounds_y b + height b.
Proof.
  unfold FixedRadius.isInBounds.
  rewrite !andb_true_iff, !Rgeb_true, !Rleb_true. tauto.
Qed.

Lemma westward_result (fuel : nat) :
  poissonImageSampler westward_draws circle15 (3 + fuel) 0%nat
  = Ok (<[0%Z := sampleP]> {[ 1%Z := sampleA ]}, 17%nat).
Proof.
  unfold poissonImageSampler.
  rewrite (validated_hasValidImageList _ circle15_validated). cbn [negb].
  unfold mbind, M_bind.
  cbn [bounds images isCircle minDist maxTries circle15 default].
  rewrite westward_run. reflexivity.
Qed.

(** C2: with bounds that do not start at the origin a sample of the result
    can lie outside the bounds.  In the rectangle of width 15 that starts
    at [x = 2], the run below returns [sampleP], whose left edge is at
    [x = 0]: the in-bounds test compares the footprint with 0 and with the
    width, not with the origin of the bounds.  The test of the sampler
    with a fixed radius, which compares with the origin, rejects
    [sampleP]. *)
Theorem sample_left_of_shifted_bounds :
  validated circle15 /\
  (forall j, 0 <= westward_draws j < 1) /\
  poissonImageSampler westward_draws circle15 3 0%nat
    = Ok (<[0%Z := sampleP]> {[ 1%Z := sampleA ]}, 17%nat) /\
  (<[0%Z := sampleP]> {[ 1%Z := sampleA ]} : SampleList) !! 0%Z = Some sampleP /\
  x sampleP - radius sampleP < bounds_x (bounds circle15) /\
  isInBounds sampleP 1 0 (COLS shifted15 unit_images 8)
    (ROWS shifted15 unit_images 8) shifted15 = true /\
  FixedRadius.isInBounds sampleP 1 0 (COLS shifted15 unit_images 8)
    (ROWS shifted15 unit_images 8) shifted15 = false.
Proof.
  split; [apply circle15_validated |].
  split; [apply westward_range |].
  split; [apply (westward_result 0) |].
  split; [apply lookup_insert_eq |].
  split; [simpl; lra |].
  split; [apply sampleP_in_shifted15 |].
  destruct (FixedRadius.isInBounds sampleP 1 0 _ _ shifted15) eqn:Hin;
    [| reflexivity].
  apply fixed_radius_isInBounds_footprint in Hin. simpl in Hin. lra.
Qed.







(** ** One iteration of the growth loop *)


(** ** The theorems at concrete inputs *)

Lemma spacing_invariant_witness :
  (forall j, 0 <= overwriting_draws j < 1) /\
  validated circle13 /\
  poissonImageSampler overwriting_draws circle13 5 0%nat = Ok (gridPB, 27%nat) /\
  0%Z <> 1%Z /\
  gridPB !! 0%Z = Some sampleP /\
  gridPB !! 1%Z = Some sampleB /\
  default DEFAULT_MIN_DIST (minDist circle13) + radius sampleP + radius sampleB
    <= Math_hypot (x sampleP - x sampleB) (y sampleP - y sampleB).
Proof.
  assert (H0 : gridPB !! 0%Z = Some sampleP).
  { unfold gridPB, gridP. rewrite lookup_insert_ne by lia.
    apply lookup_singleton_eq. }
  assert (H1 : gridPB !! 1%Z = Some sampleB) by apply lookup_insert_eq.
  assert (Hne : 0%Z <> 1%Z) by lia.
  repeat split; try assumption;
    try apply overwriting_range; try apply circle13_validated;
    try apply (overwriting_result 0).
  exact (spacing_invariant overwriting_draws circle13 5 0 gridPB 27
           overwriting_range circle13_validated (overwriting_result 0)
           0%Z 1%Z sampleP sampleB Hne H0 H1).
Defined.

Lemma sample_index_valid_witness :
  (forall j, 0 <= overwriting_draws j < 1) /\
  validated circle13 /\
  poissonImageSampler overwriting_draws circle13 5 0%nat = Ok (gridPB, 27%nat) /\
  ((forall (i : Z) (n : Sample), gridPB !! i = Some n ->
     (0 <= index n < Z.of_nat (length (images circle13)))%Z /\
     is_Some (array_get (images circle13) (index n))) /\
  (exists (image0 : Image) (first : Sample),
     array_get (images circle13) 0 = Some image0 /\
     createFirstSample overwriting_draws (bounds circle13) image0 (default false (isCircle circle13)) 0%nat
       = Ok (first, S (S 0%nat)) /\
     index first = 0%Z /\
     radius first = (if default false (isCircle circle13) then size image0
                     else getRadiusForSize (size image0)) /\
     x first = bounds_x (bounds circle13) + size image0
               + overwriting_draws 0%nat * (width (bounds circle13) + bounds_x (bounds circle13)
                             - size image0
                             - (bounds_x (bounds circle13) + size image0)) /\
     let c := default false (isCircle circle13) in
     let m := default DEFAULT_MIN_DIST (minDist circle13) in
     let t := default DEFAULT_MAX_TRIES (maxTries circle13) in
     let cs := CELL_SIZE (images circle13) m in
     let cols := COLS (bounds circle13) (images circle13) m in
     let rows := ROWS (bounds circle13) (images circle13) m in
     let col := Zfloor (x first / cs) in
     let row := Zfloor (y first / cs) in
     let seeded := {| GRID := {[ getIndexInGrid first cs cols := first ]};
                      ACTIVE := [first] |} in
     (forall fuel' : nat,
        sampler overwriting_draws (bounds circle13) (images circle13) c m t fuel' 0%nat =
        if negb (isInBounds first col row cols rows (bounds circle13))
        then Ok ({| GRID := ∅; ACTIVE := [] |}, S (S 0%nat))
        else whileLoop overwriting_draws (bounds circle13) (images circle13) c m t col row fuel'
               seeded (S (S 0%nat))) /\
     ((isInBounds first col row cols rows (bounds circle13) = false /\
       gridPB = ∅ /\ 27%nat = S (S 0%nat)) \/
      (isInBounds first col row cols rows (bounds circle13) = true /\
       exists st : State,
         whileLoop overwriting_draws (bounds circle13) (images circle13) c m t col row 5%nat
           seeded (S (S 0%nat)) = Ok (st, 27%nat) /\
         gridPB = GRID st)))).
Proof.
  split; [apply overwriting_range |].
  split; [apply circle13_validated |].
  split; [apply (overwriting_result 0) |].
  exact (sample_index_valid overwriting_draws circle13 5 0 gridPB 27
           overwriting_range circle13_validated (overwriting_result 0)).
Defined.

Lemma empty_bounds_valid_images :
  hasValidImageList (images empty_bounds_options) = true.
Proof.
  unfold hasValidImageList, empty_bounds_options. cbn [images length forallb].
  unfold Reqb. cbn [size]. destruct (Req_dec_T 10 0) as [E|_]; [lra | reflexivity].
Qed.

Lemma degenerate_bounds_give_empty_result_witness :
  hasValidImageList (images empty_bounds_options) = true /\
  array_get (images empty_bounds_options) 0 = Some {| size := 10 |} /\
  0 < size {| size := 10 |} /\
  width (bounds empty_bounds_options) <= 0 /\
  sampler (draws []) (bounds empty_bounds_options) (images empty_bounds_options)
    false DEFAULT_MIN_DIST DEFAULT_MAX_TRIES 0 0%nat
    = Ok ({| GRID := ∅; ACTIVE := [] |}, 2%nat) /\
  poissonImageSampler (draws []) empty_bounds_options 0 0%nat = Ok (∅, 2%nat).
Proof.
  assert (Hsz : 0 < size {| size := 10 |}) by (simpl; lra).
  assert (Hw : width (bounds empty_bounds_options) <= 0) by (simpl; lra).
  split; [apply empty_bounds_valid_images |].
  split; [reflexivity |].
  split; [exact Hsz |].
  split; [exact Hw |].
  exact (degenerate_bounds_give_empty_result (draws []) empty_bounds_options
           0 0 {| size := 10 |} empty_bounds_valid_images eq_refl Hsz
           (or_introl Hw)).
Defined.

Lemma unit_images_positive (image : Image) :
  image ∈ unit_images -> 0 < size image.
Proof. intros ->%list_elem_of_singleton. simpl. lra. Qed.

Lemma candidate_distance_from_seed_witness :
  (forall j, 0 <= overwriting_draws j < 1) /\
  unit_images <> [] /\
  (forall image, image ∈ unit_images -> 0 < size image) /\
  0 <= 8 /\ 0 <= radius sampleP /\
  exists cand image,
    createSampleFromSample overwriting_draws sampleP unit_images 8 true 3%nat
      = Ok (cand, 7%nat) /\
    array_get unit_images (index cand) = Some image /\
    8 + radius sampleP + size image
      <= Math_hypot (x cand - x sampleP) (y cand - y sampleP)
      <= 8 + radius sampleP + size image + 8.
Proof.
  assert (Hne : unit_images <> []) by discriminate.
  assert (H8 : 0 <= 8) by lra.
  assert (Hr : 0 <= radius sampleP) by (simpl; lra).
  split; [apply overwriting_range |].
  split; [exact Hne |].
  split; [apply unit_images_positive |].
  split; [exact H8 |]. split; [exact Hr |].
  exact (candidate_distance_from_seed overwriting_draws sampleP unit_images 8
           true 3 overwriting_range Hne unit_images_positive H8 Hr).
Defined.


Lemma radius_derived_at_creation_witness :
  0 <= 10 /\
  getRadiusForSize 10 = 10 * sqrt 2 / 2 /\
  createSampleFromSample overwriting_draws sampleP unit_images 8 true 3%nat
    = Ok (sampleA, 7%nat) /\
  exists image, array_get unit_images (index sampleA) = Some image /\
    radius sampleA = if true then size image else sqrt (2 * size image ^ 2) / 2.
Proof.
  assert (H10 : 0 <= 10) by lra.
  split; [exact H10 |].
  split; [exact (proj1 radius_derived_at_creation 10 H10) |].
  split; [apply overwriting_creates_A |].
  exact (proj2 (proj2 radius_derived_at_creation) overwriting_draws sampleP
           unit_images 8 true 3%nat sampleA 7%nat overwriting_creates_A).
Defined.

(** * Further properties of the functions *)

(** ** [clampRandom] *)



(** ** [createFirstSample] *)

(** X2: when the bounds are at least two image sizes wide and high, the
    first sample is created at least one size away from each edge of the
    bounds, origin included, so that its footprint lies inside the
    bounds. *)
Theorem createFirstSample_inside_bounds random (b : Bounds) (image : Image)
  (c : bool) (k : nat) :
  (forall j, 0 <= random j < 1) ->
  0 < size image ->
  2 * size image <= width b -> 2 * size image <= height b ->
  exists s, createFirstSample random b image c k = Ok (s, S (S k)) /\
    bounds_x b + size image <= x s <= bounds_x b + width b - size image /\
    bounds_y b + size image <= y s <= bounds_y b + height b - size image /\
    bounds_x b <= x s - radius s /\ x s + radius s <= bounds_x b + width b /\
    bounds_y b <= y s - radius s /\ y s + radius s <= bounds_y b + height b.
Proof.
  intros Hrnd Hsz Hw Hh.
  exists (firstSampleAt random b image c k).
  split; [apply createFirstSample_eq |].
  pose proof (Hrnd k) as Hu. pose proof (Hrnd (S k)) as Hv.
  assert (Hr : 0 < radius (firstSampleAt random b image c k) <= size image).
  { unfold firstSampleAt; cbn [radius]. destruct c; [lra |].
    apply getRadiusForSize_pos, Hsz. }
  unfold firstSampleAt in *. cbn [x y radius] in *.
  repeat split; nra.
Qed.

Lemma createFirstSample_inside_bounds_witness :
  (forall j, 0 <= overwriting_draws j < 1) /\
  0 < size {| size := 1 |} /\
  2 * size {| size := 1 |} <= width shifted15 /\
  2 * size {| size := 1 |} <= height shifted15 /\
  exists s, createFirstSample overwriting_draws shifted15 {| size := 1 |} false 0%nat
            = Ok (s, 2%nat) /\
    bounds_x shifted15 + size {| size := 1 |} <= x s
      <= bounds_x shifted15 + width shifted15 - size {| size := 1 |} /\
    bounds_y shifted15 + size {| size := 1 |} <= y s
      <= bounds_y shifted15 + height shifted15 - size {| size := 1 |} /\
    bounds_x shifted15 <= x s - radius s /\
    x s + radius s <= bounds_x shifted15 + width shifted15 /\
    bounds_y shifted15 <= y s - radius s /\
    y s + radius s <= bounds_y shifted15 + height shifted15.
Proof.
  assert (H1 : 0 < size {| size := 1 |}) by (simpl; lra).
  assert (H2 : 2 * size {| size := 1 |} <= width shifted15) by (simpl; lra).
  assert (H3 : 2 * size {| size := 1 |} <= height shifted15) by (simpl; lra).
  split; [apply overwriting_range |].
  split; [exact H1 |]. split; [exact H2 |]. split; [exact H3 |].
  exact (createFirstSample_inside_bounds overwriting_draws shifted15
           {| size := 1 |} false 0%nat overwriting_range H1 H2 H3).
Defined.

(** ** [getRadiusForSize] *)

(** X3: [getRadiusForSize size] is half the diagonal of the square of side
    [size]: the distance from the centre of the square to each corner, so
    that the circle of this radius is the smallest one that holds the
    square. *)
Theorem getRadiusForSize_half_diagonal (sz : R) :
  getRadiusForSize sz = Math_hypot (sz / 2) (sz / 2).
Proof.
  unfold getRadiusForSize, Math_hypot.
  replace (sz / 2 * (sz / 2) + sz / 2 * (sz / 2))
    with (sz ^ 2 * 2 * ((1 / 2) * (1 / 2))) by (simpl; lra).
  rewrite (sqrt_mult_alt (sz ^ 2 * 2) (1 / 2 * (1 / 2))) by (simpl; nra).
  rewrite (sqrt_square (1 / 2)) by lra. reflexivity.
Qed.

(** ** [getIndexInGrid] *)

(** X4: for a sample whose column lies inside the grid, the index in the
    flat grid determines the cell: the column is the index modulo the
    number of columns and the row its quotient, so that two such samples
    with the same index lie in the same cell. *)
Theorem getIndexInGrid_determines_cell (a b : Sample) (cs : R) (cols : Z) :
  (0 <= Zfloor (x a / cs) < cols)%Z ->
  (0 <= Zfloor (x b / cs) < cols)%Z ->
  ((getIndexInGrid a cs cols) mod cols = Zfloor (x a / cs) /\
   (getIndexInGrid a cs cols) / cols = Zfloor (y a / cs))%Z /\
  (getIndexInGrid a cs cols = getIndexInGrid b cs cols ->
   Zfloor (x a / cs) = Zfloor (x b / cs) /\
   Zfloor (y a / cs) = Zfloor (y b / cs)).
Proof.
  intros Ha Hb. unfold getIndexInGrid.
  assert (Hdec : forall col row : Z, (0 <= col < cols)%Z ->
            ((col + row * cols) mod cols = col /\
             (col + row * cols) / cols = row)%Z).
  { intros col row Hc. split.
    - rewrite Z.mod_add by lia. apply Z.mod_small, Hc.
    - rewrite Z.div_add by lia. rewrite Z.div_small by exact Hc. lia. }
  split; [apply Hdec, Ha |].
  intros Heq.
  destruct (Hdec _ (Zfloor (y a / cs)) Ha) as [Hma Hda].
  destruct (Hdec _ (Zfloor (y b / cs)) Hb) as [Hmb Hdb].
  rewrite Heq in Hma, Hda. split; congruence.
Qed.

Lemma getIndexInGrid_determines_cell_witness :
  let a := {| x := 45; y := 45; radius := 5; index := 0 |} in
  let b := {| x := 41; y := 49; radius := 5; index := 0 |} in
  (0 <= Zfloor (x a / 10) < 10)%Z /\
  (0 <= Zfloor (x b / 10) < 10)%Z /\
  ((getIndexInGrid a 10 10) mod 10 = Zfloor (x a / 10) /\
   (getIndexInGrid a 10 10) / 10 = Zfloor (y a / 10))%Z /\
  (getIndexInGrid a 10 10 = getIndexInGrid b 10 10 ->
   Zfloor (x a / 10) = Zfloor (x b / 10) /\
   Zfloor (y a / 10) = Zfloor (y b / 10)).
Proof.
  intros a b.
  assert (Ha : (0 <= Zfloor (x a / 10) < 10)%Z).
  { unfold a; cbn [x]. rewrite (Zfloor_eq 4) by (simpl; lra). lia. }
  assert (Hb : (0 <= Zfloor (x b / 10) < 10)%Z).
  { unfold b; cbn [x]. rewrite (Zfloor_eq 4) by (simpl; lra). lia. }
  split; [exact Ha |]. split; [exact Hb |].
  exact (getIndexInGrid_determines_cell a b 10 10 Ha Hb).
Defined.

(** ** [isAllowedToDraw] *)

(** X5: on a grid whose samples sit at their own index and have a radius of
    at most [rmax], and with the scan range the sampler computes for [rmax],
    [isAllowedToDraw] accepts a candidate exactly when the candidate keeps
    the distance [minDist] plus the two radii from every sample of the
    grid: the scanned square of cells misses no sample that is too close. *)
Theorem isAllowedToDraw_exact (c : Sample) (cs : R) (cols : Z) (m : R)
  (grid : SampleList) (rmax : R) :
  0 < cs -> radius c <= rmax -> stored cs cols rmax grid ->
  isAllowedToDraw c cs cols m grid (Zceil ((m + rmax * 2) / cs)) = true <->
  forall (i : Z) (n : Sample), grid !! i = Some n ->
    m + radius c + radius n <= Math_hypot (x n - x c) (y n - y c).
Proof.
  intros Hcs Hrc Hst. split.
  - intros Hal. eapply allowed_implies_spaced; eassumption.
  - apply isAllowedToDraw_far.
Qed.

Lemma unit_CELL_SIZE_pos : 0 < CELL_SIZE unit_images 8.
Proof.
  rewrite unit_CELL_SIZE. apply Rdiv_lt_0_compat; [lra | apply sqrt2_pos].
Qed.

Lemma gridPA_stored :
  stored (CELL_SIZE unit_images 8) (COLS square13 unit_images 8) 1 gridPA.
Proof.
  intros i n. unfold gridPA, gridP.
  rewrite lookup_insert_Some, lookup_singleton_Some.
  intros [[<- <-] | [_ [<- <-]]].
  - rewrite index_A. split; [reflexivity | simpl; lra].
  - rewrite index_P. split; [reflexivity | simpl; lra].
Qed.

Lemma isAllowedToDraw_exact_witness :
  0 < CELL_SIZE unit_images 8 /\
  radius sampleB <= 1 /\
  stored (CELL_SIZE unit_images 8) (COLS square13 unit_images 8) 1 gridPA /\
  (isAllowedToDraw sampleB (CELL_SIZE unit_images 8)
     (COLS square13 unit_images 8) 8 gridPA
     (Zceil ((8 + 1 * 2) / CELL_SIZE unit_images 8)) = true <->
   forall (i : Z) (n : Sample), gridPA !! i = Some n ->
     8 + radius sampleB + radius n
     <= Math_hypot (x n - x sampleB) (y n - y sampleB)).
Proof.
  assert (Hr : radius sampleB <= 1) by (simpl; lra).
  split; [apply unit_CELL_SIZE_pos |].
  split; [exact Hr |]. split; [apply gridPA_stored |].
  exact (isAllowedToDraw_exact sampleB (CELL_SIZE unit_images 8)
           (COLS square13 unit_images 8) 8 gridPA 1
           unit_CELL_SIZE_pos Hr gridPA_stored).
Defined.

(** * Further properties of the sampler *)

Lemma radiusOf_pos (c : bool) (image : Image) :
  0 < size image -> 0 < radiusOf c image <= size image.
Proof.
  intros Hsz. unfold radiusOf. destruct c; [lra |].
  apply getRadiusForSize_pos, Hsz.
Qed.

Lemma steps_radius_from_image random B (imgs : list Image) c m col row st st' :
  (forall image, image ∈ imgs -> 0 < size image) ->
  rtc (step random B imgs c m col row) st st' ->
  (forall i n, GRID st !! i = Some n ->
     exists image, array_get imgs (index n) = Some image /\
       radius n = radiusOf c image /\ 0 < radius n <= size image) ->
  forall i n, GRID st' !! i = Some n ->
    exists image, array_get imgs (index n) = Some image /\
      radius n = radiusOf c image /\ 0 < radius n <= size image.
Proof.
  intros Hpos.
  apply (steps_invariant (step random B imgs c m col row)
    (fun st => forall i n, GRID st !! i = Some n ->
       exists image, array_get imgs (index n) = Some image /\
         radius n = radiusOf c image /\ 0 < radius n <= size image)).
  intros a b Ha Hab.
  destruct Hab as [st0 seed cand k0 k1 Hseed Hcand Hin Hal | st0 i0];
    [| exact Ha].
  intros i n. simpl. rewrite lookup_insert_Some.
  intros [[<- <-] | [_ Hn]]; [| eapply Ha, Hn].
  apply createSampleFromSample_inv in Hcand as (image & Hg & -> & _).
  exists image. unfold candidateAt; cbn [index radius].
  split; [exact Hg |]. split; [reflexivity |].
  apply (radiusOf_pos _ image), Hpos. eapply array_get_elem_of, Hg.
Qed.

Lemma first_radius_from_image random B (imgs : list Image) c k image0 idx :
  array_get imgs 0 = Some image0 -> 0 < size image0 ->
  forall i n,
    ({[ idx := firstSampleAt random B image0 c k ]} : SampleList) !! i = Some n ->
    exists image, array_get imgs (index n) = Some image /\
      radius n = radiusOf c image /\ 0 < radius n <= size image.
Proof.
  intros Hget Hsz i n [<- <-]%lookup_singleton_Some.
  exists image0. unfold firstSampleAt; cbn [index radius].
  split; [exact Hget |]. split; [reflexivity |].
  apply (radiusOf_pos _ image0), Hsz.
Qed.

(** X7: every sample of the returned grid carries the radius derived from
    the image its [index] names, so that a caller who looks the image up
    with [images[sample.index]] finds the image the radius was computed
    from; the radius is positive and at most the size of that image. *)
Theorem returned_radius_from_indexed_image random (o : Options) fuel k
  (grid : SampleList) k' :
  (forall j, 0 <= random j < 1) ->
  validated o ->
  poissonImageSampler random o fuel k = Ok (grid, k') ->
  forall (i : Z) (n : Sample), grid !! i = Some n ->
    exists image,
      array_get (images o) (index n) = Some image /\
      radius n = radiusOf (default false (isCircle o)) image /\
      0 < radius n <= size image.
Proof.
  intros Hrnd Hval Hrun.
  destruct (validated_first_image o Hval) as (image0 & Hget & Hin0).
  pose proof (validated_hasValidImageList o Hval) as Hvalid.
  destruct Hval as (_ & _ & Hne & Hpos & Hm & _).
  destruct (poissonImageSampler_inv _ _ _ _ _ _ Hvalid Hrun) as (st & Hs & ->).
  destruct (sampler_cases _ _ _ _ _ _ _ _ _ _ _ Hrnd Hget Hs)
    as [-> | (_ & Hsteps & _)].
  - intros i n Hn. simpl in Hn. rewrite lookup_empty in Hn. discriminate.
  - eapply steps_radius_from_image; [exact Hpos | exact Hsteps |].
    cbn [GRID]. apply first_radius_from_image; [exact Hget | apply Hpos, Hin0].
Qed.

Lemma gridPB_1 : gridPB !! 1%Z = Some sampleB.
Proof. apply lookup_insert_eq. Qed.

Lemma returned_radius_from_indexed_image_witness :
  (forall j, 0 <= overwriting_draws j < 1) /\
  validated circle13 /\
  poissonImageSampler overwriting_draws circle13 5 0%nat = Ok (gridPB, 27%nat) /\
  gridPB !! 1%Z = Some sampleB /\
  exists image,
    array_get (images circle13) (index sampleB) = Some image /\
    radius sampleB = radiusOf (default false (isCircle circle13)) image /\
    0 < radius sampleB <= size image.
Proof.
  split; [apply overwriting_range |]. split; [apply circle13_validated |].
  split; [apply (overwriting_result 0) |]. split; [apply gridPB_1 |].
  exact (returned_radius_from_indexed_image overwriting_draws circle13 5 0
           gridPB 27 overwriting_range circle13_validated
           (overwriting_result 0) 1%Z sampleB gridPB_1).
Defined.

Lemma returned_radius_pos random (o : Options) fuel k (grid : SampleList) k' :
  (forall j, 0 <= random j < 1) ->
  validated o ->
  poissonImageSampler random o fuel k = Ok (grid, k') ->
  forall (i : Z) (n : Sample), grid !! i = Some n -> 0 < radius n.
Proof.
  intros Hrnd Hval Hrun.
  destruct (validated_first_image o Hval) as (image0 & Hget & Hin0).
  pose proof (validated_hasValidImageList o Hval) as Hvalid.
  destruct Hval as (_ & _ & Hne & Hpos & Hm & _).
  destruct (poissonImageSampler_inv _ _ _ _ _ _ Hvalid Hrun) as (st & Hs & ->).
  destruct (sampler_cases _ _ _ _ _ _ _ _ _ _ _ Hrnd Hget Hs)
    as [-> | (_ & Hsteps & _)].
  - intros i n Hn. simpl in Hn. rewrite lookup_empty in Hn. discriminate.
  - intros i n Hn.
    destruct (steps_radius_from_image _ _ _ _ _ _ _ _ _ Hpos Hsteps
                (first_radius_from_image _ _ _ _ _ _ _ Hget (Hpos _ Hin0))
                i n Hn) as (image & _ & _ & Hr).
    lra.
Qed.

(** X6: for validated inputs whose bounds start at the origin, every sample
    of the returned grid lies inside the bounds with its whole footprint:
    its centre is at least one radius away from each edge. *)
Theorem footprint_inside_bounds_at_origin random (o : Options) fuel k
  (grid : SampleList) k' :
  (forall j, 0 <= random j < 1) ->
  validated o ->
  bounds_x (bounds o) = 0 -> bounds_y (bounds o) = 0 ->
  poissonImageSampler random o fuel k = Ok (grid, k') ->
  forall (i : Z) (S : Sample), grid !! i = Some S ->
    bounds_x (bounds o) <= x S - radius S /\
    x S + radius S <= bounds_x (bounds o) + width (bounds o) /\
    bounds_y (bounds o) <= y S - radius S /\
    y S + radius S <= bounds_y (bounds o) + height (bounds o).
Proof.
  intros Hrnd Hval Hx Hy Hrun i S HS.
  pose proof (footprint_in_origin_rectangle _ _ _ _ _ _ Hrnd Hval Hrun i S HS)
    as (H1 & H2 & H3 & H4).
  rewrite Hx, Hy. repeat split; lra.
Qed.

Lemma footprint_inside_bounds_at_origin_witness :
  (forall j, 0 <= overwriting_draws j < 1) /\
  validated circle13 /\
  bounds_x (bounds circle13) = 0 /\ bounds_y (bounds circle13) = 0 /\
  poissonImageSampler overwriting_draws circle13 5 0%nat = Ok (gridPB, 27%nat) /\
  gridPB !! 1%Z = Some sampleB /\
  bounds_x (bounds circle13) <= x sampleB - radius sampleB /\
  x sampleB + radius sampleB <= bounds_x (bounds circle13) + width (bounds circle13) /\
  bounds_y (bounds circle13) <= y sampleB - radius sampleB /\
  y sampleB + radius sampleB <= bounds_y (bounds circle13) + height (bounds circle13).
Proof.
  split; [apply overwriting_range |]. split; [apply circle13_validated |].
  split; [reflexivity |]. split; [reflexivity |].
  split; [apply (overwriting_result 0) |]. split; [apply gridPB_1 |].
  exact (footprint_inside_bounds_at_origin overwriting_draws circle13 5 0
           gridPB 27 overwriting_range circle13_validated eq_refl eq_refl
           (overwriting_result 0) 1%Z sampleB gridPB_1).
Defined.

Lemma Zfloor_nonneg (v : R) : 0 <= v -> (0 <= Zfloor v)%Z.
Proof. intros Hv. apply Zfloor_lub. simpl. exact Hv. Qed.

(** X8: every sample of the returned grid sits at the index computed from
    its own position, its column and its row are not negative, and neither
    is the index: the grid is written at array positions only. *)
Theorem returned_grid_positions random (o : Options) fuel k
  (grid : SampleList) k' :
  (forall j, 0 <= random j < 1) ->
  validated o ->
  poissonImageSampler random o fuel k = Ok (grid, k') ->
  let cs := CELL_SIZE (images o) (default DEFAULT_MIN_DIST (minDist o)) in
  let cols := COLS (bounds o) (images o) (default DEFAULT_MIN_DIST (minDist o)) in
  forall (i : Z) (n : Sample), grid !! i = Some n ->
    i = (Zfloor (x n / cs) + Zfloor (y n / cs) * cols)%Z /\
    (0 <= Zfloor (x n / cs))%Z /\ (0 <= Zfloor (y n / cs))%Z /\ (0 <= i)%Z.
Proof.
  intros Hrnd Hval Hrun cs cols i n Hn.
  pose proof (result_stored_at_index _ _ _ _ _ _ Hrnd Hval Hrun i n Hn) as Hi.
  pose proof (footprint_in_origin_rectangle _ _ _ _ _ _ Hrnd Hval Hrun i n Hn)
    as (Hx & _ & Hy & _).
  pose proof (returned_radius_pos _ _ _ _ _ _ Hrnd Hval Hrun i n Hn) as Hr.
  destruct Hval as (Hw & _ & Hne & Hpos & Hm & _).
  assert (Hcs : 0 < cs) by (apply CELL_SIZE_pos; assumption).
  assert (Hinv : 0 < / cs) by (apply Rinv_0_lt_compat, Hcs).
  assert (Hcol : (0 <= Zfloor (x n / cs))%Z)
    by (apply Zfloor_nonneg; unfold Rdiv; nra).
  assert (Hrow : (0 <= Zfloor (y n / cs))%Z)
    by (apply Zfloor_nonneg; unfold Rdiv; nra).
  assert (Hcols : (0 <= cols)%Z).
  { unfold cols, COLS. fold cs. apply Zfloor_nonneg. unfold Rdiv. nra. }
  unfold getIndexInGrid in Hi. fold cs cols in Hi.
  split; [exact Hi |]. split; [exact Hcol |]. split; [exact Hrow |]. nia.
Qed.

Lemma returned_grid_positions_witness :
  (forall j, 0 <= overwriting_draws j < 1) /\
  validated circle13 /\
  poissonImageSampler overwriting_draws circle13 5 0%nat = Ok (gridPB, 27%nat) /\
  gridPB !! 1%Z = Some sampleB /\
  let cs := CELL_SIZE (images circle13) (default DEFAULT_MIN_DIST (minDist circle13)) in
  let cols := COLS (bounds circle13) (images circle13)
                (default DEFAULT_MIN_DIST (minDist circle13)) in
  1%Z = (Zfloor (x sampleB / cs) + Zfloor (y sampleB / cs) * cols)%Z /\
  (0 <= Zfloor (x sampleB / cs))%Z /\ (0 <= Zfloor (y sampleB / cs))%Z /\
  (0 <= 1)%Z.
Proof.
  split; [apply overwriting_range |]. split; [apply circle13_validated |].
  split; [apply (overwriting_result 0) |]. split; [apply gridPB_1 |].
  exact (returned_grid_positions overwriting_draws circle13 5 0
           gridPB 27 overwriting_range circle13_validated
           (overwriting_result 0) 1%Z sampleB gridPB_1).
Defined.

Lemma hasValidImageList_nonempty (imgs : list Image) :
  hasValidImageList imgs = true ->
  exists image0, array_get imgs 0 = Some image0 /\ imgs <> [].
Proof.
  unfold hasValidImageList. intros [Hlen _]%andb_true_iff.
  destruct imgs as [|image0 l]; [discriminate |].
  exists image0. split; [reflexivity | discriminate].
Qed.

(** X9: whatever the options, when the draws lie in [0, 1) the sampler
    never reads a property of [undefined]: the seed index always falls
    inside the active list and the image index inside the image list, so
    that no [TypeError] is thrown. *)
Theorem poissonImageSampler_never_throws random (o : Options) fuel k :
  (forall j, 0 <= random j < 1) ->
  poissonImageSampler random o fuel k <> TypeError.
Proof.
  intros Hrnd. unfold poissonImageSampler.
  destruct (hasValidImageList (images o)) eqn:Hvalid; cbn [negb];
    [| discriminate].
  destruct (hasValidImageList_nonempty _ Hvalid) as (image0 & Hget & Hne).
  unfold mbind, M_bind.
  rewrite (sampler_eq _ _ _ _ _ _ _ _ _ Hget). cbv zeta.
  destruct (negb _); [discriminate |].
  match goal with
  | |- context [whileLoop ?r ?B ?I ?c ?m ?t ?col ?row ?f ?st ?k0] =>
      pose proof (whileLoop_no_TypeError r B I c m t col row Hrnd Hne f st k0)
        as Hloop;
      destruct (whileLoop r B I c m t col row f st k0) as [[st' k1]| |]
  end; [discriminate | congruence | discriminate].
Qed.

Lemma poissonImageSampler_never_throws_witness :
  (forall j, 0 <= alternating_draws j < 1) /\
  poissonImageSampler alternating_draws circle13 7 0%nat <> TypeError.
Proof.
  split; [apply alternating_range |].
  exact (poissonImageSampler_never_throws alternating_draws circle13 7 0%nat
           alternating_range).
Defined.

Lemma steps_grid_nonempty random B (imgs : list Image) c m col row st st' :
  rtc (step random B imgs c m col row) st st' ->
  GRID st <> ∅ -> GRID st' <> ∅.
Proof.
  apply (steps_invariant (step random B imgs c m col row)
           (fun st => GRID st <> ∅)).
  intros a b Ha Hab.
  destruct Hab as [st0 seed cand k0 k1 Hseed Hcand Hin Hal | st0 i0];
    [| exact Ha].
  simpl. apply insert_non_empty.
Qed.

(** X10: when the validated sampler returns, the returned grid is empty
    exactly when the first sample failed the in-bounds test: once the first
    sample is stored, the grid never becomes empty again. *)
Theorem result_empty_iff_first_sample_out random (o : Options) fuel k
  (grid : SampleList) k' (image0 : Image) :
  (forall j, 0 <= random j < 1) ->
  validated o ->
  array_get (images o) 0 = Some image0 ->
  poissonImageSampler random o fuel k = Ok (grid, k') ->
  let m := default DEFAULT_MIN_DIST (minDist o) in
  let s := firstSampleAt random (bounds o) image0 (default false (isCircle o)) k in
  grid = ∅ <->
  isInBounds s (Zfloor (x s / CELL_SIZE (images o) m))
    (Zfloor (y s / CELL_SIZE (images o) m))
    (COLS (bounds o) (images o) m) (ROWS (bounds o) (images o) m) (bounds o)
  = false.
Proof.
  intros Hrnd Hval Hget Hrun m s.
  pose proof (validated_hasValidImageList o Hval) as Hvalid.
  destruct (poissonImageSampler_inv _ _ _ _ _ _ Hvalid Hrun) as (st & Hs & ->).
  rewrite (sampler_eq _ _ _ _ _ _ _ _ _ Hget) in Hs. cbv zeta in Hs.
  fold m s in Hs.
  destruct (isInBounds s _ _ _ _ (bounds o)) eqn:Hin; cbn [negb] in Hs.
  - split; [| discriminate]. intros Hempty. exfalso.
    apply whileLoop_steps in Hs as [Hsteps _];
      [| exact Hrnd | destruct Hval as (_ & _ & Hne & _); exact Hne].
    apply steps_grid_nonempty in Hsteps; [exact (Hsteps Hempty) |].
    cbn [GRID]. apply insert_non_empty.
  - injection Hs as <- _. split; reflexivity.
Qed.

Lemma result_empty_iff_first_sample_out_witness :
  (forall j, 0 <= overwriting_draws j < 1) /\
  validated circle13 /\
  array_get (images circle13) 0 = Some {| size := 1 |} /\
  poissonImageSampler overwriting_draws circle13 5 0%nat = Ok (gridPB, 27%nat) /\
  let m := default DEFAULT_MIN_DIST (minDist circle13) in
  let s := firstSampleAt overwriting_draws (bounds circle13) {| size := 1 |}
             (default false (isCircle circle13)) 0 in
  (gridPB = ∅ <->
   isInBounds s (Zfloor (x s / CELL_SIZE (images circle13) m))
     (Zfloor (y s / CELL_SIZE (images circle13) m))
     (COLS (bounds circle13) (images circle13) m)
     (ROWS (bounds circle13) (images circle13) m) (bounds circle13)
   = false).
Proof.
  split; [apply overwriting_range |]. split; [apply circle13_validated |].
  split; [reflexivity |]. split; [apply (overwriting_result 0) |].
  exact (result_empty_iff_first_sample_out overwriting_draws circle13 5 0
           gridPB 27 {| size := 1 |} overwriting_range circle13_validated
           eq_refl (overwriting_result 0)).
Defined.

(** X11: an image list that is empty or holds an image of size 0 does not
    pass the validation: the sampler returns the empty array at once,
    without any draw, whatever the other options. *)
Theorem invalid_image_list_gives_empty_result random (o : Options) fuel k :
  images o = [] \/ (exists image, image ∈ images o /\ size image = 0) ->
  poissonImageSampler random o fuel k = Ok (∅, k).
Proof.
  intros Hbad.
  assert (Hinvalid : hasValidImageList (images o) = false).
  { unfold hasValidImageList. destruct Hbad as [-> | (image & Hin & Hz)].
    - reflexivity.
    - apply andb_false_iff. right.
      destruct (forallb _ (images o)) eqn:Hall; [| reflexivity].
      rewrite forallb_forall in Hall.
      specialize (Hall image (proj1 (list_elem_of_In _ _) Hin)).
      unfold Reqb in Hall. rewrite Hz in Hall.
      destruct (Req_dec_T 0 0) as [_ | Hne]; [discriminate | congruence]. }
  unfold poissonImageSampler. rewrite Hinvalid. reflexivity.
Qed.

Lemma invalid_image_list_gives_empty_result_witness :
  (images zero_size_options = [] \/
   exists image, image ∈ images zero_size_options /\ size image = 0) /\
  poissonImageSampler overwriting_draws zero_size_options 5 0%nat = Ok (∅, 0%nat).
Proof.
  assert (Hbad : images zero_size_options = [] \/
            exists image, image ∈ images zero_size_options /\ size image = 0).
  { right. exists {| size := 0 |}. split; [| reflexivity].
    right. left. }
  split; [exact Hbad |].
  exact (invalid_image_list_gives_empty_result overwriting_draws
           zero_size_options 5 0%nat Hbad).
Defined.

(** X12: with [maxTries] zero or negative the [for] loop never runs: when
    the first sample is in bounds, the only iteration of the [while] loop
    draws the seed and removes it, and the sampler returns the grid that
    holds the first sample alone, after three draws. *)
Theorem no_tries_single_sample random (o : Options) fuel k (image0 : Image)
  (t : Z) :
  (forall j, 0 <= random j < 1) ->
  hasValidImageList (images o) = true ->
  array_get (images o) 0 = Some image0 ->
  maxTries o = Some t -> (t <= 0)%Z ->
  let m := default DEFAULT_MIN_DIST (minDist o) in
  let s := firstSampleAt random (bounds o) image0 (default false (isCircle o)) k in
  isInBounds s (Zfloor (x s / CELL_SIZE (images o) m))
    (Zfloor (y s / CELL_SIZE (images o) m))
    (COLS (bounds o) (images o) m) (ROWS (bounds o) (images o) m) (bounds o)
  = true ->
  poissonImageSampler random o (S fuel) k =
  Ok ({[ getIndexInGrid s (CELL_SIZE (images o) m) (COLS (bounds o) (images o) m)
         := s ]}, S (S (S k))).
Proof.
  intros Hrnd Hvalid Hget Ht Hle m s Hin.
  unfold poissonImageSampler. rewrite Hvalid. cbn [negb].
  unfold mbind, M_bind.
  rewrite (sampler_eq _ _ _ _ _ _ _ _ _ Hget). cbv zeta.
  fold m s. rewrite Hin. cbn [negb].
  rewrite whileLoop_S by discriminate.
  unfold whileBody, mbind, M_bind, Math_random. cbn [ACTIVE length].
  assert (Hidx : Zfloor (random (S (S k)) * INR 1) = 0%Z).
  { pose proof (Zfloor_draw_range _ 1 (Hrnd (S (S k)))). lia. }
  rewrite Hidx. change (array_get [s] 0) with (Some s).
  cbn [defined mret M_ret]. rewrite Ht.
  change (default DEFAULT_MAX_TRIES (Some t)) with t.
  replace (Z.to_nat t) with 0%nat by lia.
  cbn [tryLoop mret M_ret negb GRID ACTIVE].
  change (splice1 [s] 0) with (@nil Sample).
  rewrite whileLoop_done by reflexivity. reflexivity.
Qed.

Lemma no_tries_valid_images :
  hasValidImageList (images circle13_no_tries) = true.
Proof. apply (validated_hasValidImageList circle13), circle13_validated. Qed.

Lemma no_tries_first_in_bounds :
  let m := default DEFAULT_MIN_DIST (minDist circle13_no_tries) in
  let s := firstSampleAt overwriting_draws (bounds circle13_no_tries)
             {| size := 1 |} (default false (isCircle circle13_no_tries)) 0 in
  isInBounds s (Zfloor (x s / CELL_SIZE (images circle13_no_tries) m))
    (Zfloor (y s / CELL_SIZE (images circle13_no_tries) m))
    (COLS (bounds circle13_no_tries) (images circle13_no_tries) m)
    (ROWS (bounds circle13_no_tries) (images circle13_no_tries) m)
    (bounds circle13_no_tries)
  = true.
Proof.
  cbv zeta.
  change (default false (isCircle circle13_no_tries)) with true.
  change (default DEFAULT_MIN_DIST (minDist circle13_no_tries)) with 8.
  change (bounds circle13_no_tries) with square13.
  change (images circle13_no_tries) with unit_images.
  rewrite overwriting_first. cbn [x y sampleP]. rewrite unit_cell_1.
  apply sampleP_in_square13.
Qed.

Lemma no_tries_single_sample_witness :
  (forall j, 0 <= overwriting_draws j < 1) /\
  hasValidImageList (images circle13_no_tries) = true /\
  array_get (images circle13_no_tries) 0 = Some {| size := 1 |} /\
  maxTries circle13_no_tries = Some 0%Z /\ (0 <= 0)%Z /\
  let m := default DEFAULT_MIN_DIST (minDist circle13_no_tries) in
  let s := firstSampleAt overwriting_draws (bounds circle13_no_tries)
             {| size := 1 |} (default false (isCircle circle13_no_tries)) 0 in
  poissonImageSampler overwriting_draws circle13_no_tries 1 0%nat =
  Ok ({[ getIndexInGrid s (CELL_SIZE (images circle13_no_tries) m)
           (COLS (bounds circle13_no_tries) (images circle13_no_tries) m)
         := s ]}, 3%nat).
Proof.
  assert (H0 : (0 <= 0)%Z) by lia.
  split; [apply overwriting_range |]. split; [apply no_tries_valid_images |].
  split; [reflexivity |]. split; [reflexivity |]. split; [exact H0 |].
  exact (no_tries_single_sample overwriting_draws circle13_no_tries 0 0
           {| size := 1 |} 0%Z overwriting_range no_tries_valid_images
           eq_refl eq_refl H0 no_tries_first_in_bounds).
Defined.

(** * The sampler with a fixed radius *)

Lemma fixed_createFirstSample_eq random (b : Bounds) (k : nat) :
  FixedRadius.createFirstSample random b k
  = Ok (fixedFirstAt random b k, S (S k)).
Proof. destruct b; reflexivity. Qed.

Lemma fixed_createSampleFromSample_eq random (s : Sample) (m : R) (k : nat) :
  FixedRadius.createSampleFromSample random s m k
  = Ok (fixedCandidateAt random s m k, S (S (S k))).
Proof. reflexivity. Qed.

(** X13: the candidate the sampler with a fixed radius creates from a seed
    has radius 5 and lies at a distance from the seed between
    [minDist + 5 + seed.radius] and that plus [minDist]; three draws are
    made. *)
Theorem fixed_candidate_distance random (s : Sample) (m : R) (k : nat) :
  (forall j, 0 <= random j < 1) ->
  0 <= m -> 0 <= radius s ->
  exists cand,
    FixedRadius.createSampleFromSample random s m k = Ok (cand, (k + 3)%nat) /\
    radius cand = 5 /\
    m + 5 + radius s
      <= Math_hypot (x cand - x s) (y cand - y s)
      <= m + 5 + radius s + m.
Proof.
  intros Hrnd Hm Hr. exists (fixedCandidateAt random s m k).
  split; [rewrite fixed_createSampleFromSample_eq; do 2 f_equal; lia |].
  split; [reflexivity |].
  pose proof (Hrnd (S k)) as Hu. pose proof (Hrnd (S (S k))) as Hv.
  unfold fixedCandidateAt; cbn [x y].
  match goal with
  | |- _ <= Math_hypot ?a ?b <= _ =>
      replace a with (cos (random k * PI * 2)
                      * (m + 5 + radius s + random (S k) * m)) by ring;
      replace b with (sin (random k * PI * 2)
                      * (m + 5 + radius s + random (S (S k)) * m)) by ring
  end.
  apply hypot_between; [apply cos_sin_unit | lra | nra | nra].
Qed.

Lemma fixed_candidate_distance_witness :
  (forall j, 0 <= overwriting_draws j < 1) /\
  0 <= 20 /\ 0 <= radius {| x := 100; y := 100; radius := 5; index := 0 |} /\
  exists cand,
    FixedRadius.createSampleFromSample overwriting_draws
      {| x := 100; y := 100; radius := 5; index := 0 |} 20 0%nat
      = Ok (cand, 3%nat) /\
    radius cand = 5 /\
    20 + 5 + radius {| x := 100; y := 100; radius := 5; index := 0 |}
      <= Math_hypot (x cand - x {| x := 100; y := 100; radius := 5; index := 0 |})
                    (y cand - y {| x := 100; y := 100; radius := 5; index := 0 |})
      <= 20 + 5 + radius {| x := 100; y := 100; radius := 5; index := 0 |} + 20.
Proof.
  assert (H20 : 0 <= 20) by lra.
  assert (Hr : 0 <= radius {| x := 100; y := 100; radius := 5; index := 0 |})
    by (simpl; lra).
  split; [apply overwriting_range |]. split; [exact H20 |]. split; [exact Hr |].
  exact (fixed_candidate_distance overwriting_draws
           {| x := 100; y := 100; radius := 5; index := 0 |} 20 0%nat
           overwriting_range H20 Hr).
Defined.

(** X14: in bounds at least 10 wide and 10 high the sampler with a fixed
    radius creates its first sample, of radius 5, at least 5 away from each
    edge of the bounds, origin included: the footprint part of its
    in-bounds test holds. *)
Theorem fixed_first_sample_inside_bounds random (b : Bounds) (k : nat) :
  (forall j, 0 <= random j < 1) ->
  10 <= width b -> 10 <= height b ->
  exists s, FixedRadius.createFirstSample random b k = Ok (s, S (S k)) /\
    radius s = 5 /\
    bounds_x b <= x s - radius s /\ x s + radius s <= bounds_x b + width b /\
    bounds_y b <= y s - radius s /\ y s + radius s <= bounds_y b + height b.
Proof.
  intros Hrnd Hw Hh. exists (fixedFirstAt random b k).
  split; [apply fixed_createFirstSample_eq |]. split; [reflexivity |].
  pose proof (Hrnd k) as Hu. pose proof (Hrnd (S k)) as Hv.
  unfold fixedFirstAt; cbn [x y radius]. repeat split; nra.
Qed.

Lemma fixed_first_sample_inside_bounds_witness :
  (forall j, 0 <= overwriting_draws j < 1) /\
  10 <= width {| bounds_x := 20; bounds_y := 20; width := 40; height := 40 |} /\
  10 <= height {| bounds_x := 20; bounds_y := 20; width := 40; height := 40 |} /\
  exists s,
    FixedRadius.createFirstSample overwriting_draws
      {| bounds_x := 20; bounds_y := 20; width := 40; height := 40 |} 0%nat
      = Ok (s, 2%nat) /\
    radius s = 5 /\
    20 <= x s - radius s /\ x s + radius s <= 20 + 40 /\
    20 <= y s - radius s /\ y s + radius s <= 20 + 40.
Proof.
  assert (Hw : 10 <= width {| bounds_x := 20; bounds_y := 20; width := 40;
                              height := 40 |}) by (simpl; lra).
  assert (Hh : 10 <= height {| bounds_x := 20; bounds_y := 20; width := 40;
                               height := 40 |}) by (simpl; lra).
  split; [apply overwriting_range |]. split; [exact Hw |]. split; [exact Hh |].
  exact (fixed_first_sample_inside_bounds overwriting_draws
           {| bounds_x := 20; bounds_y := 20; width := 40; height := 40 |}
           0%nat overwriting_range Hw Hh).
Defined.

Lemma fixed_sampler_eq random B m t fuel k :
  let s := fixedFirstAt random B k in
  let col := Zfloor (x s / FixedRadius.CELL_SIZE m) in
  let row := Zfloor (y s / FixedRadius.CELL_SIZE m) in
  FixedRadius.sampler random B m t fuel k =
  if negb (FixedRadius.isInBounds s col row (FixedRadius.COLS B m)
             (FixedRadius.ROWS B m) B)
  then Ok ({| GRID := ∅; ACTIVE := [] |}, S (S k))
  else FixedRadius.whileLoop random B m t col row fuel
         {| GRID := {[ getIndexInGrid s (FixedRadius.CELL_SIZE m)
                         (FixedRadius.COLS B m) := s ]};
            ACTIVE := [s] |} (S (S k)).
Proof.
  intros s col row. unfold FixedRadius.sampler, mbind, M_bind.
  rewrite fixed_createFirstSample_eq. fold s. fold col. fold row.
  destruct (negb _); reflexivity.
Qed.

(** X15: bounds less than 10 wide or less than 10 high cannot hold a
    sample of radius 5: the sampler with a fixed radius returns the empty
    array after the two draws of the first sample, whatever the draws and
    the other options, without entering its loop. *)
Theorem fixed_small_bounds_give_empty_result random
  (o : FixedRadius.Options) fuel k :
  width (FixedRadius.bounds o) < 10 \/ height (FixedRadius.bounds o) < 10 ->
  FixedRadius.poissonImageSampler random o fuel k = Ok (∅, S (S k)).
Proof.
  intros Hsmall. unfold FixedRadius.poissonImageSampler, mbind, M_bind.
  rewrite fixed_sampler_eq. cbv zeta.
  match goal with
  | |- context [FixedRadius.isInBounds ?s ?c ?r ?cs ?rs ?b] =>
      destruct (FixedRadius.isInBounds s c r cs rs b) eqn:Hin
  end; cbn [negb]; [| reflexivity].
  apply fixed_radius_isInBounds_footprint in Hin.
  unfold fixedFirstAt in Hin; cbn [x y radius] in Hin. lra.
Qed.

Lemma fixed_small_bounds_give_empty_result_witness :
  let o := {| FixedRadius.bounds :=
                {| bounds_x := 0; bounds_y := 0; width := 0; height := 0 |};
              FixedRadius.minDist := None; FixedRadius.maxTries := None |} in
  (width (FixedRadius.bounds o) < 10 \/ height (FixedRadius.bounds o) < 10) /\
  FixedRadius.poissonImageSampler overwriting_draws o 0 0%nat = Ok (∅, 2%nat).
Proof.
  intros o.
  assert (Hsmall : width (FixedRadius.bounds o) < 10 \/
                   height (FixedRadius.bounds o) < 10) by (left; simpl; lra).
  split; [exact Hsmall |].
  exact (fixed_small_bounds_give_empty_result overwriting_draws o 0 0%nat Hsmall).
Defined.

Section FixedLoopFacts.

Variables (random : nat -> R) (B : Bounds) (m : R) (t : Z) (col row : Z).

(** A property of the grid that placing an accepted candidate keeps. *)
Variable P : SampleList -> Prop.

Hypothesis P_place :
  forall (grid : SampleList) (seed : Sample) (k : nat),
    let cand := fixedCandidateAt random seed m k in
    P grid ->
    FixedRadius.isInBounds cand col row (FixedRadius.COLS B m)
      (FixedRadius.ROWS B m) B = true ->
    FixedRadius.isAllowedToDraw cand (FixedRadius.CELL_SIZE m)
      (FixedRadius.COLS B m) m grid = true ->
    P (<[getIndexInGrid cand (FixedRadius.CELL_SIZE m) (FixedRadius.COLS B m)
         := cand]> grid).

Lemma fixed_tryLoop_invariant (n : nat) :
  forall seed st found k st' found' k',
    P (GRID st) ->
    FixedRadius.tryLoop random B m col row n seed st found k
      = Ok ((st', found'), k') ->
    P (GRID st').
Proof.
  induction n as [|n IH]; intros seed st found k st' found' k' HP Hrun.
  - injection Hrun as <- _ _. exact HP.
  - cbn [FixedRadius.tryLoop] in Hrun. unfold mbind at 1, M_bind at 1 in Hrun.
    rewrite fixed_createSampleFromSample_eq in Hrun.
    destruct (FixedRadius.isInBounds _ col row _ _ B) eqn:Hin;
      cbn [negb] in Hrun;
      [destruct (FixedRadius.isAllowedToDraw _ _ _ m (GRID st)) eqn:Hal;
       cbn [negb] in Hrun |].
    + eapply IH; [| exact Hrun]. cbn [GRID FixedRadius.place].
      apply (P_place (GRID st) seed k HP Hin Hal).
    + eapply IH; eassumption.
    + eapply IH; eassumption.
Qed.

Lemma fixed_whileBody_invariant st k st' k' :
  P (GRID st) ->
  FixedRadius.whileBody random B m t col row st k = Ok (st', k') ->
  P (GRID st').
Proof.
  intros HP Hrun. unfold FixedRadius.whileBody, mbind, M_bind, Math_random in Hrun.
  destruct (array_get (ACTIVE st) _) as [seed|]; [| discriminate].
  cbn [defined mret M_ret] in Hrun.
  destruct (FixedRadius.tryLoop random B m col row (Z.to_nat t) seed st false (S k))
    as [[[st1 found] k1]| |] eqn:Htry; try discriminate.
  apply fixed_tryLoop_invariant in Htry; [| exact HP].
  destruct found; cbn [negb] in Hrun; injection Hrun as <- _; exact Htry.
Qed.

Lemma fixed_whileLoop_invariant (fuel : nat) :
  forall st k st' k',
    P (GRID st) ->
    FixedRadius.whileLoop random B m t col row fuel st k = Ok (st', k') ->
    P (GRID st').
Proof.
  induction fuel as [|fuel IH]; intros st k st' k' HP Hrun.
  - cbn [FixedRadius.whileLoop] in Hrun. destruct (ACTIVE st); [| discriminate].
    injection Hrun as <- _. exact HP.
  - cbn [FixedRadius.whileLoop] in Hrun. destruct (ACTIVE st).
    + injection Hrun as <- _. exact HP.
    + unfold mbind, M_bind in Hrun.
      destruct (FixedRadius.whileBody random B m t col row st k)
        as [[st1 k1]| |] eqn:Hbody; try discriminate.
      eapply IH; [| exact Hrun].
      eapply fixed_whileBody_invariant; eassumption.
Qed.

End FixedLoopFacts.

Lemma fixed_poissonImageSampler_inv random (o : FixedRadius.Options) fuel k
  (grid : SampleList) k' :
  FixedRadius.poissonImageSampler random o fuel k = Ok (grid, k') ->
  exists st,
    FixedRadius.sampler random (FixedRadius.bounds o)
      (default DEFAULT_MIN_DIST (FixedRadius.minDist o))
      (default DEFAULT_MAX_TRIES (FixedRadius.maxTries o)) fuel k = Ok (st, k') /\
    grid = GRID st.
Proof.
  intros Hrun. unfold FixedRadius.poissonImageSampler, mbind, M_bind in Hrun.
  destruct (FixedRadius.sampler _ _ _ _ _ _) as [[st k1]| |]; try discriminate.
  injection Hrun as <- <-. eauto.
Qed.

(** X16: every sample the sampler with a fixed radius returns lies inside
    the bounds with its whole footprint, wherever the bounds start: its
    in-bounds test compares the footprint with the origin of the bounds and
    with the origin plus the extent. *)
Theorem fixed_footprint_inside_bounds random (o : FixedRadius.Options) fuel k
  (grid : SampleList) k' :
  FixedRadius.poissonImageSampler random o fuel k = Ok (grid, k') ->
  forall (i : Z) (S : Sample), grid !! i = Some S ->
    let b := FixedRadius.bounds o in
    bounds_x b <= x S - radius S /\ x S + radius S <= bounds_x b + width b /\
    bounds_y b <= y S - radius S /\ y S + radius S <= bounds_y b + height b.
Proof.
  intros Hrun.
  destruct (fixed_poissonImageSampler_inv _ _ _ _ _ _ Hrun) as (st & Hs & ->).
  rewrite fixed_sampler_eq in Hs. cbv zeta in Hs.
  pose (b := FixedRadius.bounds o).
  pose (P := fun grid : SampleList => forall (i : Z) (S : Sample),
    grid !! i = Some S ->
    bounds_x b <= x S - radius S /\ x S + radius S <= bounds_x b + width b /\
    bounds_y b <= y S - radius S /\ y S + radius S <= bounds_y b + height b).
  change (P (GRID st)).
  match type of Hs with
  | context [FixedRadius.isInBounds ?s ?c ?r ?cs ?rs ?bb] =>
      destruct (FixedRadius.isInBounds s c r cs rs bb) eqn:Hin
  end; cbn [negb] in Hs.
  - eapply fixed_whileLoop_invariant; [| | exact Hs].
    + intros grid seed k0 cand HP Hcin _ i S. rewrite lookup_insert_Some.
      intros [[_ <-] | [_ HS]]; [| exact (HP i S HS)].
      apply fixed_radius_isInBounds_footprint in Hcin. exact Hcin.
    + cbn [GRID]. intros i S [_ <-]%lookup_singleton_Some.
      apply fixed_radius_isInBounds_footprint in Hin. exact Hin.
  - injection Hs as <- _. intros i S HS. simpl in HS.
    rewrite lookup_empty in HS. discriminate.
Qed.

Lemma fixed_cell20 (v : R) (n : Z) :
  IZR n * 20 <= v * sqrt 2 < (IZR n + 1) * 20 ->
  Zfloor (v / FixedRadius.CELL_SIZE 20) = n.
Proof.
  intros Hv. unfold FixedRadius.CELL_SIZE. apply Zfloor_eq.
  pose proof sqrt2_pos.
  replace (v / (20 / sqrt 2)) with (v * sqrt 2 / 20) by (field; lra).
  lra.
Qed.

Lemma fixed_square20_run :
  FixedRadius.poissonImageSampler overwriting_draws fixed_square20 1 0%nat
  = Ok ({[ 0%Z := sample55 ]}, 3%nat).
Proof.
  unfold FixedRadius.poissonImageSampler, mbind, M_bind.
  rewrite fixed_sampler_eq. cbv zeta.
  change (default DEFAULT_MIN_DIST (FixedRadius.minDist fixed_square20)) with 20.
  change (default DEFAULT_MAX_TRIES (FixedRadius.maxTries fixed_square20))
    with 0%Z.
  assert (Hfirst : fixedFirstAt overwriting_draws
                     (FixedRadius.bounds fixed_square20) 0 = sample55).
  { unfold fixedFirstAt, sample55, overwriting_draws, draws. simpl.
    f_equal; lra. }
  rewrite Hfirst. cbn [x y sample55].
  assert (Hcols : FixedRadius.COLS (FixedRadius.bounds fixed_square20) 20 = 1%Z).
  { unfold FixedRadius.COLS. apply fixed_cell20.
    pose proof sqrt2_bounds. simpl. lra. }
  assert (Hrows : FixedRadius.ROWS (FixedRadius.bounds fixed_square20) 20 = 1%Z).
  { unfold FixedRadius.ROWS. apply fixed_cell20.
    pose proof sqrt2_bounds. simpl. lra. }
  assert (Hcell : Zfloor (5 / FixedRadius.CELL_SIZE 20) = 0%Z).
  { apply fixed_cell20. pose proof sqrt2_bounds. simpl. lra. }
  rewrite Hcell, Hcols, Hrows.
  assert (Hin : FixedRadius.isInBounds sample55 0 0 1 1
                  (FixedRadius.bounds fixed_square20) = true).
  { unfold FixedRadius.isInBounds.
    rewrite !andb_true_iff, !Z.ltb_lt, !Rgeb_true, !Rleb_true. simpl.
    repeat split; (lia || lra). }
  rewrite Hin. cbn [negb].
  assert (Hidx : getIndexInGrid sample55 (FixedRadius.CELL_SIZE 20) 1 = 0%Z).
  { unfold getIndexInGrid. cbn [x y sample55]. rewrite Hcell. lia. }
  rewrite Hidx.
  cbn [FixedRadius.whileLoop ACTIVE].
  unfold mbind, M_bind, FixedRadius.whileBody, mbind, M_bind, Math_random.
  cbn [ACTIVE length].
  replace (Zfloor (overwriting_draws 2 * INR 1)) with 0%Z
    by (symmetry; apply Zfloor_0_mul).
  change (array_get [sample55] 0) with (Some sample55).
  cbn [defined mret M_ret]. change (Z.to_nat 0) with 0%nat.
  cbn [FixedRadius.tryLoop mret M_ret negb GRID ACTIVE].
  change (splice1 [sample55] 0) with (@nil Sample).
  reflexivity.
Qed.

Lemma fixed_footprint_inside_bounds_witness :
  FixedRadius.poissonImageSampler overwriting_draws fixed_square20 1 0%nat
    = Ok ({[ 0%Z := sample55 ]}, 3%nat) /\
  ({[ 0%Z := sample55 ]} : SampleList) !! 0%Z = Some sample55 /\
  let b := FixedRadius.bounds fixed_square20 in
  bounds_x b <= x sample55 - radius sample55 /\
  x sample55 + radius sample55 <= bounds_x b + width b /\
  bounds_y b <= y sample55 - radius sample55 /\
  y sample55 + radius sample55 <= bounds_y b + height b.
Proof.
  assert (H0 : ({[ 0%Z := sample55 ]} : SampleList) !! 0%Z = Some sample55)
    by apply lookup_singleton_eq.
  split; [apply fixed_square20_run |]. split; [exact H0 |].
  exact (fixed_footprint_inside_bounds overwriting_draws fixed_square20 1 0%nat
           _ 3%nat fixed_square20_run 0%Z sample55 H0).
Defined.

Lemma fixed_scan_complete c cs cols m (grid : SampleList) n :
  FixedRadius.isAllowedToDraw c cs cols m grid = true ->
  grid !! getIndexInGrid n cs cols = Some n ->
  (Z.abs (Zfloor (x n / cs) - Zfloor (x c / cs)) <= 1)%Z ->
  (Z.abs (Zfloor (y n / cs) - Zfloor (y c / cs)) <= 1)%Z ->
  m <= Math_hypot (x n - x c) (y n - y c).
Proof.
  intros Hal Hn Hi Hj. unfold FixedRadius.isAllowedToDraw in Hal.
  rewrite forallb_forall in Hal.
  assert (Hscan : forall i : Z, (Z.abs i <= 1)%Z -> In i (seqZ (-1) 3)).
  { intros i Hi'. apply list_elem_of_In, elem_of_seqZ. lia. }
  specialize (Hal _ (Hscan _ Hi)). rewrite forallb_forall in Hal.
  specialize (Hal _ (Hscan _ Hj)).
  unfold getIndexInGrid in Hn.
  replace (Zfloor (x c / cs) + (Zfloor (x n / cs) - Zfloor (x c / cs))
           + (Zfloor (y c / cs) + (Zfloor (y n / cs) - Zfloor (y c / cs))) * cols)%Z
    with (Zfloor (x n / cs) + Zfloor (y n / cs) * cols)%Z in Hal by lia.
  rewrite Hn in Hal.
  apply negb_true_iff, Rltb_false in Hal. exact Hal.
Qed.

Lemma same_cell_close (cs a b : R) :
  0 < cs -> Zfloor (a / cs) = Zfloor (b / cs) -> Rabs (a - b) < cs.
Proof.
  intros Hcs Heq.
  pose proof (Zfloor_bound (a / cs)) as Ha.
  pose proof (Zfloor_bound (b / cs)) as Hb. rewrite Heq in Ha.
  assert (Hd : -1 < a / cs - b / cs < 1) by lra.
  replace (a - b) with ((a / cs - b / cs) * cs) by (field; lra).
  apply Rabs_def1; nra.
Qed.

Lemma fixed_isAllowedToDraw_far c cs cols m (grid : SampleList) :
  (forall i n, grid !! i = Some n ->
     m <= Math_hypot (x n - x c) (y n - y c)) ->
  FixedRadius.isAllowedToDraw c cs cols m grid = true.
Proof.
  intros Hfar. unfold FixedRadius.isAllowedToDraw.
  apply forallb_forall. intros i _. apply forallb_forall. intros j _.
  destruct (grid !! _) as [n|] eqn:Hn; [| reflexivity].
  apply negb_true_iff, Rltb_false. eapply Hfar, Hn.
Qed.

(** X17: the neighbour test of the sampler with a fixed radius accepts a
    candidate only if every sample stored at its own index in the cell of
    the candidate or in one of the eight cells around it is at least
    [minDist] away; with the cell size [minDist / sqrt 2] of that sampler, a
    candidate that falls into the cell of a stored sample is always
    rejected. *)
Theorem fixed_isAllowedToDraw_neighbours (c n : Sample) (cols : Z) (m : R)
  (grid : SampleList) :
  let cs := FixedRadius.CELL_SIZE m in
  grid !! getIndexInGrid n cs cols = Some n ->
  (Z.abs (Zfloor (x n / cs) - Zfloor (x c / cs)) <= 1)%Z ->
  (Z.abs (Zfloor (y n / cs) - Zfloor (y c / cs)) <= 1)%Z ->
  (FixedRadius.isAllowedToDraw c cs cols m grid = true ->
   m <= Math_hypot (x n - x c) (y n - y c)) /\
  (0 < m ->
   Zfloor (x n / cs) = Zfloor (x c / cs) ->
   Zfloor (y n / cs) = Zfloor (y c / cs) ->
   FixedRadius.isAllowedToDraw c cs cols m grid = false).
Proof.
  intros cs Hn Hi Hj.
  assert (Hfar : FixedRadius.isAllowedToDraw c cs cols m grid = true ->
                 m <= Math_hypot (x n - x c) (y n - y c)).
  { intros Hal. eapply fixed_scan_complete; eassumption. }
  split; [exact Hfar |].
  intros Hm Hcol Hrow.
  destruct (FixedRadius.isAllowedToDraw c cs cols m grid) eqn:Hal;
    [| reflexivity].
  exfalso. specialize (Hfar eq_refl).
  assert (Hcs : 0 < cs).
  { unfold cs, FixedRadius.CELL_SIZE.
    apply Rdiv_lt_0_compat; [exact Hm | apply sqrt2_pos]. }
  assert (Hcs2 : cs * cs * 2 = m * m).
  { unfold cs, FixedRadius.CELL_SIZE. pose proof sqrt2_sqr. pose proof sqrt2_pos.
    field_simplify; [| lra]. rewrite <- (Rmult_1_l (sqrt 2 ^ 2)).
    replace (sqrt 2 ^ 2) with 2 by (simpl; lra). field. }
  pose proof (same_cell_close cs _ _ Hcs Hcol) as Hx.
  pose proof (same_cell_close cs _ _ Hcs Hrow) as Hy.
  apply Rabs_def2 in Hx, Hy.
  unfold Math_hypot in Hfar.
  set (dx := x n - x c) in *. set (dy := y n - y c) in *.
  clearbody dx dy cs.
  assert (Hdx : dx * dx < cs * cs) by nra.
  assert (Hdy : dy * dy < cs * cs) by nra.
  assert (Hnn : 0 <= dx * dx + dy * dy) by nra.
  pose proof (sqrt_sqrt _ Hnn) as Hsq.
  pose proof (sqrt_pos (dx * dx + dy * dy)) as Hpos.
  set (h := sqrt (dx * dx + dy * dy)) in *. clearbody h.
  nra.
Qed.

Lemma fixed_cell10 (v : R) (n : Z) :
  IZR n * 10 <= v * sqrt 2 < (IZR n + 1) * 10 ->
  Zfloor (v / FixedRadius.CELL_SIZE 10) = n.
Proof.
  intros Hv. unfold FixedRadius.CELL_SIZE. apply Zfloor_eq.
  pose proof sqrt2_pos.
  replace (v / (10 / sqrt 2)) with (v * sqrt 2 / 10) by (field; lra).
  lra.
Qed.

Lemma fixed_cell10_5 : Zfloor (5 / FixedRadius.CELL_SIZE 10) = 0%Z.
Proof. apply fixed_cell10. pose proof sqrt2_bounds. simpl. lra. Qed.

Lemma fixed_cell10_6 : Zfloor (6 / FixedRadius.CELL_SIZE 10) = 0%Z.
Proof. apply fixed_cell10. pose proof sqrt2_bounds. simpl. lra. Qed.

Lemma fixed_cell10_14 : Zfloor (14 / FixedRadius.CELL_SIZE 10) = 1%Z.
Proof. apply fixed_cell10. pose proof sqrt2_bounds. simpl. lra. Qed.

Lemma fixed_cell10_12 : Zfloor (12 / FixedRadius.CELL_SIZE 10) = 1%Z.
Proof. apply fixed_cell10. pose proof sqrt2_bounds. simpl. lra. Qed.

Lemma fixed_sample55_stored :
  ({[ 0%Z := sample55 ]} : SampleList)
    !! getIndexInGrid sample55 (FixedRadius.CELL_SIZE 10) 5 = Some sample55.
Proof.
  unfold getIndexInGrid. cbn [x y sample55]. rewrite fixed_cell10_5.
  apply lookup_singleton_eq.
Qed.

Lemma fixed_sample1412_allowed :
  FixedRadius.isAllowedToDraw sample1412 (FixedRadius.CELL_SIZE 10) 5 10
    {[ 0%Z := sample55 ]} = true.
Proof.
  apply fixed_isAllowedToDraw_far.
  intros i n [_ <-]%lookup_singleton_Some.
  apply hypot_ge. simpl. lra.
Qed.

Lemma fixed_isAllowedToDraw_neighbours_witness :
  let cs := FixedRadius.CELL_SIZE 10 in
  let grid : SampleList := {[ 0%Z := sample55 ]} in
  grid !! getIndexInGrid sample55 cs 5 = Some sample55 /\
  (Z.abs (Zfloor (x sample55 / cs) - Zfloor (x sample1412 / cs)) <= 1)%Z /\
  (Z.abs (Zfloor (y sample55 / cs) - Zfloor (y sample1412 / cs)) <= 1)%Z /\
  FixedRadius.isAllowedToDraw sample1412 cs 5 10 grid = true /\
  10 <= Math_hypot (x sample55 - x sample1412) (y sample55 - y sample1412) /\
  0 < 10 /\
  Zfloor (x sample55 / cs) = Zfloor (x sample66 / cs) /\
  Zfloor (y sample55 / cs) = Zfloor (y sample66 / cs) /\
  FixedRadius.isAllowedToDraw sample66 cs 5 10 grid = false.
Proof.
  intros cs grid.
  assert (Hi : (Z.abs (Zfloor (x sample55 / cs) - Zfloor (x sample1412 / cs))
                <= 1)%Z).
  { unfold cs; cbn [x sample55 sample1412].
    rewrite fixed_cell10_5, fixed_cell10_14. lia. }
  assert (Hj : (Z.abs (Zfloor (y sample55 / cs) - Zfloor (y sample1412 / cs))
                <= 1)%Z).
  { unfold cs; cbn [y sample55 sample1412].
    rewrite fixed_cell10_5, fixed_cell10_12. lia. }
  assert (Hcol : Zfloor (x sample55 / cs) = Zfloor (x sample66 / cs)).
  { unfold cs; cbn [x sample55 sample66].
    rewrite fixed_cell10_5, fixed_cell10_6. reflexivity. }
  assert (Hrow : Zfloor (y sample55 / cs) = Zfloor (y sample66 / cs)).
  { unfold cs; cbn [y sample55 sample66].
    rewrite fixed_cell10_5, fixed_cell10_6. reflexivity. }
  assert (Hi' : (Z.abs (Zfloor (x sample55 / cs) - Zfloor (x sample66 / cs))
                 <= 1)%Z) by (rewrite Hcol; lia).
  assert (Hj' : (Z.abs (Zfloor (y sample55 / cs) - Zfloor (y sample66 / cs))
                 <= 1)%Z) by (rewrite Hrow; lia).
  assert (H10 : 0 < 10) by lra.
  split; [apply fixed_sample55_stored |]. split; [exact Hi |].
  split; [exact Hj |]. split; [apply fixed_sample1412_allowed |].
  split.
  { exact (proj1 (fixed_isAllowedToDraw_neighbours sample1412 sample55 5 10
                    grid fixed_sample55_stored Hi Hj)
                 fixed_sample1412_allowed). }
  split; [exact H10 |]. split; [exact Hcol |]. split; [exact Hrow |].
  exact (proj2 (fixed_isAllowedToDraw_neighbours sample66 sample55 5 10
                  grid fixed_sample55_stored Hi' Hj')
               H10 Hcol Hrow).
Defined.
